(** * Verbal Web audio worklet helpers: [mem.cc] and [pcm16sledecoder.cc]

    A shallow embedding of the two C++ translation units of
    [src/audioworklet] and the properties of the PCM16 decoder and of the
    buffer provisioner.

    Target platform.  The units are compiled by Emscripten for wasm32:
    [int] is a 32-bit two's-complement integer, [size_t] a 32-bit unsigned
    integer, [float] is IEEE-754 binary32 and the linear memory is one flat
    array of bytes.  The byte order of the host is kept as a parameter
    ([endianness]) because the decoder tests it at run time. *)

From Stdlib Require Import ZArith QArith Qpower Lia List Bool.
From Stdlib Require Import Floats.SpecFloat.
From Stdlib Require Init.Byte Strings.Byte.
From stdpp Require Import base list.

Local Open Scope Z_scope.

(** ** Machine integers *)

Module CInt.

Definition INT_MAX : Z := 2147483647.
Definition INT_MIN : Z := -2147483648.
Definition SIZE_MAX : Z := 4294967295.

Definition in_int (z : Z) : bool := (INT_MIN <=? z) && (z <=? INT_MAX).

(** Conversion of an [int] to [size_t] (modulo 2^32). *)
Definition to_size_t (z : Z) : Z := z mod (SIZE_MAX + 1).

(** Conversion to [int16_t]: the value modulo 2^16, read as
    two's complement. *)
Definition to_int16 (z : Z) : Z := (z + 32768) mod 65536 - 32768.

(** Conversion to [uint16_t]. *)
Definition to_uint16 (z : Z) : Z := z mod 65536.

End CInt.

(** ** Bytes *)

Abbreviation byte := Init.Byte.byte.

Definition byte_to_Z (b : byte) : Z := Z.of_N (Byte.to_N b).

Definition byte_of_Z (z : Z) : byte :=
  match Byte.of_N (Z.to_N (z mod 256)) with
  | Some b => b
  | None => Byte.x00
  end.

(** ** Host byte order *)

Inductive endianness := LittleEndian | BigEndian.

(** Object representation of a [uint16_t]: the bytes at the lower and at the
    higher address. *)
Definition u16_to_bytes (e : endianness) (v : Z) : byte * byte :=
  match e with
  | LittleEndian => (byte_of_Z v, byte_of_Z (Z.shiftr v 8))
  | BigEndian => (byte_of_Z (Z.shiftr v 8), byte_of_Z v)
  end.

(** The [uint16_t] whose object representation is [b0] (lower address),
    [b1] (higher address). *)
Definition u16_of_bytes (e : endianness) (b0 b1 : byte) : Z :=
  match e with
  | LittleEndian => Z.lor (byte_to_Z b0) (Z.shiftl (byte_to_Z b1) 8)
  | BigEndian => Z.lor (Z.shiftl (byte_to_Z b0) 8) (byte_to_Z b1)
  end.

(** Object representation of a 32-bit word, lowest address first. *)
Definition u32_to_bytes (e : endianness) (w : Z) : list byte :=
  let le := [byte_of_Z w; byte_of_Z (Z.shiftr w 8);
             byte_of_Z (Z.shiftr w 16); byte_of_Z (Z.shiftr w 24)] in
  match e with
  | LittleEndian => le
  | BigEndian => rev le
  end.

Definition u32_of_bytes (e : endianness) (b0 b1 b2 b3 : byte) : Z :=
  let combine l0 l1 l2 l3 :=
    Z.lor (byte_to_Z l0)
      (Z.lor (Z.shiftl (byte_to_Z l1) 8)
         (Z.lor (Z.shiftl (byte_to_Z l2) 16) (Z.shiftl (byte_to_Z l3) 24))) in
  match e with
  | LittleEndian => combine b0 b1 b2 b3
  | BigEndian => combine b3 b2 b1 b0
  end.

(** ** IEEE-754 binary32 *)

Module F32.

Definition prec : Z := 24.
Definition emax : Z := 128.

Definition float32 := spec_float.

(** Conversion of an integer to [float] (round to nearest even). *)
Definition of_int (z : Z) : float32 := binary_normalize prec emax z 0 false.

Definition div (x y : float32) : float32 := SFdiv prec emax x y.

(** The literal [32768.0f], that is 2^23 * 2^-8. *)
Definition c32768 : float32 := S754_finite false 8388608 (-8).

(** The exact rational value of a finite float (0 for the others). *)
Definition to_Q (f : float32) : Q :=
  match f with
  | S754_finite s m e => inject_Z (cond_Zopp s (Zpos m)) * Qpower 2 e
  | _ => 0
  end%Q.

(** The binary32 interchange format: sign bit, 8 exponent bits biased by
    127, 23 fraction bits. *)
Definition to_bits (f : float32) : Z :=
  let sign (s : bool) : Z := if s then 2147483648 else 0 in
  match f with
  | S754_zero s => sign s
  | S754_infinity s => sign s + 2139095040
  | S754_nan => 2143289344
  | S754_finite s m e =>
      if Zpos m <? 8388608 then sign s + Zpos m
      else sign s + Z.shiftl (e + 150) 23 + (Zpos m - 8388608)
  end.

Definition of_bits (w : Z) : float32 :=
  let s := Z.testbit w 31 in
  let ex := Z.land (Z.shiftr w 23) 255 in
  let fr := Z.land w 8388607 in
  if ex =? 0 then
    match fr with
    | Zpos m => S754_finite s m (-149)
    | _ => S754_zero s
    end
  else if ex =? 255 then
    (if fr =? 0 then S754_infinity s else S754_nan)
  else
    match fr + 8388608 with
    | Zpos m => S754_finite s m (ex - 150)
    | _ => S754_nan
    end.

(** The value of the expression [x / 32768.0f] for an integer operand
    [x]: the operand is converted to [float], then divided. *)
Definition scaled (x : Z) : float32 := div (of_int x) c32768.

End F32.

(** ** Linear memory and the access monad

    The linear memory is a list of bytes indexed by address.  A computation
    threads the memory and the trace of the accesses made so far; reading or
    writing outside the memory, and overflowing an [int], are undefined
    behaviour ([Undef]).

    The accesses are made one after the other on untyped bytes.  This is
    what the source does on input and output buffers that do not overlap;
    where they overlap, the first branch would read bytes written as
    [float] through a [uint16_t] pointer, which C++ leaves undefined, so
    the statements about the contents of the memory assume [disjoint]. *)

Inductive event :=
| EvLoad (a : Z) (size : Z)
| EvStore (a : Z) (v : F32.float32).

Record state := mkState { st_mem : list byte; st_trace : list event }.

Inductive result (A : Type) :=
| Ok (a : A)
| Undef
| OutOfFuel.
Arguments Ok {A} a.
Arguments Undef {A}.
Arguments OutOfFuel {A}.

Definition M (A : Type) : Type := state -> result (A * state).

Definition ret {A} (a : A) : M A := fun s => Ok (a, s).

Definition bind {A B} (c : M A) (k : A -> M B) : M B :=
  fun s =>
    match c s with
    | Ok (a, s') => k a s'
    | Undef => Undef
    | OutOfFuel => OutOfFuel
    end.

Definition undef {A} : M A := fun _ => Undef.
Definition out_of_fuel {A} : M A := fun _ => OutOfFuel.

Declare Scope cmd_scope.
Delimit Scope cmd_scope with cmd.
Notation "x <- c ;; k" := (bind c (fun x => k))
  (at level 100, c at next level, right associativity) : cmd_scope.
Notation "c ;; k" := (bind c (fun _ => k))
  (at level 100, right associativity) : cmd_scope.
Local Open Scope cmd_scope.

(** The byte at address [a], if [a] is inside the memory. *)
Definition mem_at (m : list byte) (a : Z) : option byte :=
  if a <? 0 then None else m !! Z.to_nat a.

Definition read_byte (a : Z) : M byte :=
  fun s =>
    match mem_at (st_mem s) a with
    | Some b => Ok (b, s)
    | None => Undef
    end.

Definition write_bytes (a : Z) (l : list byte) : M unit :=
  fun s =>
    if (0 <=? a) && (a + Z.of_nat (length l) <=? Z.of_nat (length (st_mem s)))
    then Ok (tt, mkState (list_inserts (Z.to_nat a) l (st_mem s)) (st_trace s))
    else Undef.

Definition log (ev : event) : M unit :=
  fun s => Ok (tt, mkState (st_mem s) (st_trace s ++ [ev])).

(** [p[0]] for [const uint8_t* p]. *)
Definition load_u8 (a : Z) : M Z :=
  b <- read_byte a ;;
  log (EvLoad a 1) ;;
  ret (byte_to_Z b).

(** [p[0]] for [const uint16_t* p]: two bytes in host order. *)
Definition load_u16 (host : endianness) (a : Z) : M Z :=
  b0 <- read_byte a ;;
  b1 <- read_byte (a + 1) ;;
  log (EvLoad a 2) ;;
  ret (u16_of_bytes host b0 b1).

(** [p[0] = f] for [float* p]: four bytes in host order. *)
Definition store_f32 (host : endianness) (a : Z) (f : F32.float32) : M unit :=
  write_bytes a (u32_to_bytes host (F32.to_bits f)) ;;
  log (EvStore a f).

(** [int] arithmetic: signed overflow is undefined behaviour. *)
Definition int_arith (z : Z) : M Z :=
  if CInt.in_int z then ret z else undef.

(** [for (int i = i0; i < numSamples; i++) body].  The comparison is made in
    [size_t], to which [i] is converted. *)
Fixpoint for_int (fuel : nat) (numSamples : Z) (i : Z) (body : Z -> M unit)
  : M unit :=
  if CInt.to_size_t i <? numSamples then
    match fuel with
    | O => out_of_fuel
    | S fuel' =>
        body i ;;
        i' <- int_arith (i + 1) ;;
        for_int fuel' numSamples i' body
    end
  else ret tt.

(** ** [pcm16sledecoder.cc] *)

(** The test [reinterpret_cast<const uint8_t*>(&one)[0] == 1]. *)
Definition host_is_little (host : endianness) : bool :=
  let one := CInt.to_uint16 1 in
  byte_to_Z (fst (u16_to_bytes host one)) =? 1.

(** The loop body of the first branch:
    [dst[i] = src16[i] / 32768.0f]. *)
Definition decode_fast_body (host : endianness) (src16 dst : Z) (i : Z)
  : M unit :=
  x <- load_u16 host (src16 + 2 * i) ;;
  store_f32 host (dst + 4 * i) (F32.div (F32.of_int x) F32.c32768).

(** The loop body of the second branch:
    [int16_t sample = (src[2 * i] << 8) | src[2 * i + 1];
     dst[i] = sample / 32768.0f]. *)
Definition decode_bytewise_body (host : endianness) (src dst : Z) (i : Z)
  : M unit :=
  i2 <- int_arith (2 * i) ;;
  x0 <- load_u8 (src + i2) ;;
  i21 <- int_arith (i2 + 1) ;;
  x1 <- load_u8 (src + i21) ;;
  let sample := CInt.to_int16 (Z.lor (Z.shiftl x0 8) x1) in
  store_f32 host (dst + 4 * i) (F32.div (F32.of_int sample) F32.c32768).

Definition decode_fast (host : endianness) (src dst numSamples : Z) : M unit :=
  let src16 := src in
  for_int (Z.to_nat numSamples) numSamples 0
    (decode_fast_body host src16 dst).

Definition decode_bytewise (host : endianness) (src dst numSamples : Z)
  : M unit :=
  for_int (Z.to_nat numSamples) numSamples 0
    (decode_bytewise_body host src dst).

Definition vw_pcm16sleDecode (host : endianness) (src dst numSamples : Z)
  : M unit :=
  if host_is_little host
  then decode_fast host src dst numSamples
  else decode_bytewise host src dst numSamples.

(** How the caller reads [dst[0]] back for [float* dst] at address [a]. *)
Definition load_f32 (host : endianness) (m : list byte) (a : Z)
  : option F32.float32 :=
  match mem_at m a, mem_at m (a + 1), mem_at m (a + 2), mem_at m (a + 3) with
  | Some b0, Some b1, Some b2, Some b3 =>
      Some (F32.of_bits (u32_of_bytes host b0 b1 b2 b3))
  | _, _, _, _ => None
  end.

(** ** [mem.cc] *)

Module Provisioner.

Definition NULL : Z := 0.

(** The calls made to the memory manager of the host. *)
Inductive host_call :=
| CallMalloc (numBytes : Z)
| CallFree (ptr : Z).

Section Host.

(** The memory manager of the host: its state, and the [malloc] and
    [free] of the C library, which are not part of this repository. *)
Variable heap : Type.
Variable malloc : Z -> heap -> Z * heap.
Variable free : Z -> heap -> heap.

Record host := mkHost { host_heap : heap; host_calls : list host_call }.

Definition call_malloc (numBytes : Z) (h : host) : Z * host :=
  let (ptr, hp) := malloc numBytes (host_heap h) in
  (ptr, mkHost hp (host_calls h ++ [CallMalloc numBytes])).

Definition call_free (ptr : Z) (h : host) : host :=
  mkHost (free ptr (host_heap h)) (host_calls h ++ [CallFree ptr]).

(** [return malloc(numBytes);] *)
Definition vw_alloc (numBytes : Z) : host -> Z * host :=
  call_malloc numBytes.

(** [free(ptr);] *)
Definition vw_free (ptr : Z) : host -> host :=
  call_free ptr.

End Host.

(** A memory manager used to exercise the theorems: it hands out the
    addresses from the break [brk] up to 65536, and never reuses one. *)
Definition bump_malloc (numBytes : Z) (brk : Z) : Z * Z :=
  if (0 <? brk) && (0 <=? numBytes) && (brk + numBytes <=? 65536)
  then (brk, brk + numBytes)
  else (NULL, brk).

Definition bump_can_satisfy (brk numBytes : Z) : Prop :=
  0 < brk /\ 0 <= numBytes /\ brk + numBytes <= 65536.

Definition bump_usable (brk ptr numBytes : Z) : Prop :=
  0 < ptr /\ ptr + numBytes <= brk.

End Provisioner.

(** ** Vocabulary of the specification *)

(** The two branches of [vw_pcm16sleDecode]. *)
Inductive path := Fast | Bytewise.

Definition path_of_host (host : endianness) : path :=
  if host_is_little host then Fast else Bytewise.

Definition decode_body (p : path) : endianness -> Z -> Z -> Z -> M unit :=
  match p with
  | Fast => decode_fast_body
  | Bytewise => decode_bytewise_body
  end.

Definition decode_path (p : path) : endianness -> Z -> Z -> Z -> M unit :=
  match p with
  | Fast => decode_fast
  | Bytewise => decode_bytewise
  end.

(** The integer that a branch divides by [32768.0f], as a function of the
    bytes at offsets [2 * i] and [2 * i + 1]. *)
Definition sample_int (p : path) (host : endianness) (b0 b1 : byte) : Z :=
  match p with
  | Fast => u16_of_bytes host b0 b1
  | Bytewise =>
      CInt.to_int16 (Z.lor (Z.shiftl (byte_to_Z b0) 8) (byte_to_Z b1))
  end.

(** Both buffers lie inside the 32-bit linear memory. *)
Definition in_bounds (m : list byte) (src dst n : Z) : Prop :=
  Z.of_nat (length m) <= CInt.SIZE_MAX + 1 /\
  0 <= n /\
  0 <= src /\ src + 2 * n <= Z.of_nat (length m) /\
  0 <= dst /\ dst + 4 * n <= Z.of_nat (length m).

(** The input bytes and the output floats do not overlap. *)
Definition disjoint (src dst n : Z) : Prop :=
  src + 2 * n <= dst \/ dst + 4 * n <= src.

Definition store_addrs (tr : list event) : list Z :=
  omap (fun ev => match ev with EvStore a _ => Some a | EvLoad _ _ => None end)
    tr.

Definition stored_values (tr : list event) : list F32.float32 :=
  omap (fun ev => match ev with EvStore _ f => Some f | EvLoad _ _ => None end)
    tr.

(** Every load of the trace is inside the input buffer and every stored
    float is [x / 32768.0f] for the integer [x] that the branch assembles
    from two bytes. *)
Definition event_ok (p : path) (host : endianness) (src n : Z) (ev : event)
  : Prop :=
  match ev with
  | EvLoad a sz => src <= a /\ a + sz <= src + 2 * n
  | EvStore a f =>
      exists b0 b1 : byte, f = F32.scaled (sample_int p host b0 b1)
  end.

(** The state of the decoder after the iterations below [i], started in
    memory [m0] with trace [tr0]. *)
Record decode_inv (p : path) (host : endianness) (src dst n : Z)
       (m0 : list byte) (tr0 : list event) (i : Z) (s : state) : Prop :=
  { inv_length : length (st_mem s) = length m0;
    inv_frame :
      forall a, ~ (dst <= a < dst + 4 * i) ->
                mem_at (st_mem s) a = mem_at m0 a;
    inv_trace :
      exists tr, st_trace s = tr0 ++ tr
                 /\ store_addrs tr = (fun j => dst + 4 * j) <$> seqZ 0 i
                 /\ Forall (event_ok p host src n) tr;
    inv_done :
      disjoint src dst n ->
      forall j b0 b1,
        0 <= j < i ->
        mem_at m0 (src + 2 * j) = Some b0 ->
        mem_at m0 (src + 2 * j + 1) = Some b1 ->
        load_f32 host (st_mem s) (dst + 4 * j)
        = Some (F32.scaled (sample_int p host b0 b1)) }.

(** The decoder, run on memory [m] with an empty trace, returns and leaves
    at [dst[i]] a float whose exact value is [q]. *)
Definition writes_sample (host : endianness) (m : list byte)
           (src dst n i : Z) (q : Q) : Prop :=
  exists s' f,
    vw_pcm16sleDecode host src dst n (mkState m []) = Ok (tt, s')
    /\ load_f32 host (st_mem s') (dst + 4 * i) = Some f
    /\ (F32.to_Q f == q)%Q.

(** The little-endian encoding of a signed 16-bit integer. *)
Definition int16_le_bytes (v : Z) : list byte :=
  [byte_of_Z v; byte_of_Z (Z.shiftr v 8)].

(** ** Concrete memories used to exercise the theorems *)

Definition bytes_of (l : list Z) : list byte := map byte_of_Z l.

(** One sample [0x1234] at address 0, room for one float at address 4 and
    one more byte after it. *)
Definition mem_one_sample : list byte :=
  bytes_of [52; 18; 0; 0; 9; 9; 9; 9; 7].

(** One sample at address 0 and room for two output buffers of one float,
    at addresses 4 and 8. *)
Definition mem_two_outputs : list byte :=
  bytes_of [52; 146; 0; 0; 1; 1; 1; 1; 2; 2; 2; 2].

(** The little-endian encoding of -2 at address 0, one float at address 4. *)
Definition mem_minus_two : list byte :=
  int16_le_bytes (-2) ++ bytes_of [0; 0; 0; 0; 0; 0].

(** The bytes [0x00, 0x80] at address 0, one float at address 4. *)
Definition mem_min_sample : list byte :=
  bytes_of [0; 128; 0; 0; 0; 0; 0; 0].

(** The bytes [0x01, 0x80] at address 0, one float at address 4. *)
Definition mem_low_high : list byte :=
  bytes_of [1; 128; 0; 0; 0; 0; 0; 0].

(** The samples [0x00, 0x80], [0x00, 0x00] and [0xFF, 0x7F] at address 0,
    three floats at address 8. *)
Definition mem_boundaries : list byte :=
  bytes_of [0; 128; 0; 0; 255; 127; 0; 0;
            0; 0; 0; 0; 0; 0; 0; 0; 0; 0; 0; 0].

(** The bytes [0xFF, 0xFF] at address 0, one float at address 4. *)
Definition mem_all_ones : list byte :=
  bytes_of [255; 255; 0; 0; 0; 0; 0; 0].

(** ** Further vocabulary *)

(** A float that is neither an infinity nor a NaN. *)
Definition f32_is_finite (f : F32.float32) : bool :=
  match f with
  | S754_zero _ | S754_finite _ _ _ => true
  | S754_infinity _ | S754_nan => false
  end.


(** Two samples, [0x1234] and [0xFFFF], at address 0 and room for two
    floats at address 4. *)
Definition mem_two_samples : list byte :=
  bytes_of [52; 18; 255; 255; 0; 0; 0; 0; 0; 0; 0; 0].

(** * Properties *)

(** ** Bytes and words *)

Lemma byte_to_Z_range (b : byte) : 0 <= byte_to_Z b < 256.
Proof.
  unfold byte_to_Z. pose proof (Byte.to_N_bounded b). lia.
Qed.

Lemma byte_to_of_Z (z : Z) : byte_to_Z (byte_of_Z z) = z mod 256.
Proof.
  unfold byte_to_Z, byte_of_Z.
  pose proof (Z.mod_pos_bound z 256 eq_refl) as Hz.
  destruct (Byte.of_N (Z.to_N (z mod 256))) as [b|] eqn:E.
  - apply Byte.to_of_N in E. rewrite E. lia.
  - apply Byte.of_N_None_iff in E. lia.
Qed.

Lemma byte_of_to_Z (b : byte) : byte_of_Z (byte_to_Z b) = b.
Proof.
  unfold byte_of_Z.
  rewrite Z.mod_small by apply byte_to_Z_range.
  unfold byte_to_Z. rewrite N2Z.id, Byte.of_to_N. reflexivity.
Qed.

Lemma testbit_byte_to_of_Z (z n : Z) :
  Z.testbit (byte_to_Z (byte_of_Z z)) n = (n <? 8) && Z.testbit z n.
Proof.
  rewrite byte_to_of_Z. change 256 with (2 ^ 8).
  apply Z.testbit_mod_pow2. lia.
Qed.

Lemma testbit_byte_shiftl (w k n : Z) :
  0 <= k -> 0 <= n ->
  Z.testbit (Z.shiftl (byte_to_Z (byte_of_Z (Z.shiftr w k))) k) n
  = (k <=? n) && (n <? k + 8) && Z.testbit w n.
Proof.
  intros Hk Hn.
  rewrite Z.shiftl_spec by lia.
  destruct (Z.leb_spec k n) as [Hkn|Hkn].
  - rewrite testbit_byte_to_of_Z, Z.shiftr_spec by lia.
    replace (n - k + k) with n by lia.
    destruct (Z.ltb_spec (n - k) 8), (Z.ltb_spec n (k + 8));
      try lia; reflexivity.
  - rewrite Z.testbit_neg_r by lia. reflexivity.
Qed.

Lemma u32_combine_split (w : Z) :
  Z.lor (byte_to_Z (byte_of_Z w))
    (Z.lor (Z.shiftl (byte_to_Z (byte_of_Z (Z.shiftr w 8))) 8)
       (Z.lor (Z.shiftl (byte_to_Z (byte_of_Z (Z.shiftr w 16))) 16)
          (Z.shiftl (byte_to_Z (byte_of_Z (Z.shiftr w 24))) 24)))
  = w mod 2 ^ 32.
Proof.
  apply Z.bits_inj'. intros n Hn.
  rewrite !Z.lor_spec, !testbit_byte_shiftl, testbit_byte_to_of_Z by lia.
  rewrite Z.testbit_mod_pow2 by lia.
  destruct (Z.testbit w n); rewrite ?andb_true_r, ?andb_false_r;
    [| reflexivity].
  destruct (Z.ltb_spec n 8), (Z.leb_spec 8 n), (Z.ltb_spec n (8 + 8)),
    (Z.leb_spec 16 n), (Z.ltb_spec n (16 + 8)), (Z.leb_spec 24 n),
    (Z.ltb_spec n (24 + 8)), (Z.ltb_spec n 32);
    simpl; try reflexivity; lia.
Qed.

Lemma u32_of_to_bytes (e : endianness) (w : Z) :
  match u32_to_bytes e w with
  | [b0; b1; b2; b3] => u32_of_bytes e b0 b1 b2 b3 = w mod 2 ^ 32
  | _ => False
  end.
Proof. destruct e; simpl; apply u32_combine_split. Qed.

Lemma length_u32_to_bytes (e : endianness) (w : Z) :
  length (u32_to_bytes e w) = 4%nat.
Proof. destruct e; reflexivity. Qed.

Lemma u16_of_bytes_little (b0 b1 : byte) :
  u16_of_bytes LittleEndian b0 b1 = byte_to_Z b0 + 256 * byte_to_Z b1.
Proof.
  unfold u16_of_bytes.
  pose proof (byte_to_Z_range b0) as H0.
  pose proof (byte_to_Z_range b1) as H1.
  rewrite Z.shiftl_mul_pow2 by lia.
  rewrite <- Z.add_nocarry_lor; [change (2 ^ 8) with 256; lia |].
  apply Z.bits_inj'. intros n Hn.
  rewrite Z.land_spec, Z.bits_0.
  destruct (Z.ltb_spec n 8).
  - rewrite Z.mul_pow2_bits_low by lia. apply andb_false_r.
  - rewrite (Z.bits_above_log2 (byte_to_Z b0) n); [reflexivity | lia |].
    destruct (Z.eq_dec (byte_to_Z b0) 0) as [->|Hne]; [simpl; lia |].
    apply Z.log2_lt_pow2; [lia |].
    apply Z.lt_le_trans with (2 ^ 8); [change (2 ^ 8) with 256; lia |].
    apply Z.pow_le_mono_r; lia.
Qed.

Lemma u16_of_bytes_big (b0 b1 : byte) :
  u16_of_bytes BigEndian b0 b1 = 256 * byte_to_Z b0 + byte_to_Z b1.
Proof.
  unfold u16_of_bytes. rewrite Z.lor_comm.
  change (Z.lor (byte_to_Z b1) (Z.shiftl (byte_to_Z b0) 8))
    with (u16_of_bytes LittleEndian b1 b0).
  rewrite u16_of_bytes_little. lia.
Qed.

Lemma u16_of_bytes_range (e : endianness) (b0 b1 : byte) :
  0 <= u16_of_bytes e b0 b1 < 65536.
Proof.
  pose proof (byte_to_Z_range b0). pose proof (byte_to_Z_range b1).
  destruct e; [rewrite u16_of_bytes_little | rewrite u16_of_bytes_big]; lia.
Qed.

Lemma host_is_little_spec (host : endianness) :
  host_is_little host
  = match host with LittleEndian => true | BigEndian => false end.
Proof. destruct host; reflexivity. Qed.

(** ** The expression [x / 32768.0f]

    For an integer [x] below 2^24 in magnitude the conversion to [float] is
    exact, and so is the division by 2^15: the quotient is a normal binary32
    number of value [x / 32768]. *)

Module F32Facts.

Import F32.

Lemma digits2_pos_bounds (p : positive) :
  2 ^ (Zpos (digits2_pos p) - 1) <= Zpos p < 2 ^ Zpos (digits2_pos p).
Proof.
  induction p as [p IH|p IH|]; cbn [digits2_pos].
  - rewrite Pos2Z.inj_succ, (Pos2Z.inj_xI p).
    replace (Z.succ (Zpos (digits2_pos p)) - 1)
      with (Z.succ (Zpos (digits2_pos p) - 1)) by lia.
    rewrite !Z.pow_succ_r by lia.
    set (a := 2 ^ (Zpos (digits2_pos p) - 1)) in *.
    set (b := 2 ^ Zpos (digits2_pos p)) in *. clearbody a b. lia.
  - rewrite Pos2Z.inj_succ, (Pos2Z.inj_xO p).
    replace (Z.succ (Zpos (digits2_pos p)) - 1)
      with (Z.succ (Zpos (digits2_pos p) - 1)) by lia.
    rewrite !Z.pow_succ_r by lia.
    set (a := 2 ^ (Zpos (digits2_pos p) - 1)) in *.
    set (b := 2 ^ Zpos (digits2_pos p)) in *. clearbody a b. lia.
  - simpl. lia.
Qed.

Lemma iter_xO_value (p k : positive) :
  Zpos (Pos.iter xO p k) = Zpos p * 2 ^ Zpos k.
Proof.
  induction k as [|k IH] using Pos.peano_ind.
  - simpl. lia.
  - rewrite Pos.iter_succ, (Pos2Z.inj_xO (Pos.iter xO p k)), IH.
    rewrite Pos2Z.inj_succ.
    rewrite Z.pow_succ_r by lia. lia.
Qed.

Lemma iter_xO_digits (p k : positive) :
  digits2_pos (Pos.iter xO p k) = (digits2_pos p + k)%positive.
Proof.
  induction k as [|k IH] using Pos.peano_ind.
  - simpl. lia.
  - rewrite Pos.iter_succ. cbn [digits2_pos]. rewrite IH. lia.
Qed.

Lemma fexp_normal (e : Z) : -125 <= e -> fexp prec emax e = e - 24.
Proof. unfold fexp, emin, prec, emax. lia. Qed.

(** A mantissa of 24 digits with an exponent in range is not rounded. *)
Lemma binary_round_aux_exact (s : bool) (m : positive) (e : Z) :
  digits2_pos m = 24%positive -> -149 <= e <= 104 ->
  binary_round_aux prec emax s (Zpos m) e loc_Exact = S754_finite s m e.
Proof.
  intros Hd He.
  assert (Hshift : shr_fexp prec emax (Zpos m) e loc_Exact
                   = (Build_shr_record (Zpos m) false false, e)).
  { unfold shr_fexp. cbn [Zdigits2 shr_record_of_loc]. rewrite Hd.
    rewrite fexp_normal by lia.
    replace (24 + e - 24 - e) with 0 by lia. reflexivity. }
  unfold binary_round_aux. rewrite Hshift.
  cbn [shr_m loc_of_shr_record round_nearest_even]. rewrite Hshift.
  cbn [shr_m].
  destruct (Z.leb_spec e (emax - prec)) as [_|Hgt];
    [reflexivity | unfold emax, prec in Hgt; lia].
Qed.

(** The conversion of an integer below 2^24 in magnitude is exact. *)
Lemma binary_round_int (s : bool) (p : positive) :
  Zpos p < 2 ^ 24 ->
  exists m e,
    binary_round prec emax s p 0 = S754_finite s m e
    /\ digits2_pos m = 24%positive
    /\ -23 <= e <= 0
    /\ Zpos m = Zpos p * 2 ^ (- e).
Proof.
  intros Hp.
  pose proof (digits2_pos_bounds p) as Hb.
  assert (Hd : Zpos (digits2_pos p) <= 24).
  { destruct (Z.le_gt_cases (Zpos (digits2_pos p)) 24) as [H|H]; [exact H |].
    assert (2 ^ 24 <= 2 ^ (Zpos (digits2_pos p) - 1))
      by (apply Z.pow_le_mono_r; lia).
    lia. }
  unfold binary_round, shl_align.
  rewrite fexp_normal by lia.
  destruct (Zpos (digits2_pos p) + 0 - 24 - 0) as [|k|k] eqn:Hk; [| lia |].
  - exists p, 0. split; [| split; [| split]].
    + apply binary_round_aux_exact; lia.
    + lia.
    + lia.
    + simpl. lia.
  - exists (Pos.iter xO p k), (Zpos (digits2_pos p) + 0 - 24).
    assert (Hdk : digits2_pos (Pos.iter xO p k) = 24%positive)
      by (rewrite iter_xO_digits; lia).
    split; [| split; [| split]].
    + apply binary_round_aux_exact; [exact Hdk | lia].
    + exact Hdk.
    + lia.
    + rewrite iter_xO_value. f_equal. f_equal. lia.
Qed.

Lemma div_eucl_shift (m : positive) :
  Z.div_eucl (Z.shiftl (Zpos m) 24) 8388608 = (Zpos m~0, 0).
Proof.
  rewrite Z.shiftl_mul_pow2 by lia.
  pose proof (Z.div_eucl_eq (Zpos m * 2 ^ 24) 8388608 ltac:(lia)) as Heq.
  pose proof (Z.mod_pos_bound (Zpos m * 2 ^ 24) 8388608 ltac:(lia)) as Hb.
  unfold Z.modulo in Hb.
  destruct (Z.div_eucl (Zpos m * 2 ^ 24) 8388608) as [q r].
  change (2 ^ 24) with 16777216 in Heq.
  f_equal; lia.
Qed.

Lemma div_c32768 (s : bool) (m : positive) (e : Z) :
  digits2_pos m = 24%positive -> -133 <= e <= 119 ->
  div (S754_finite s m e) c32768 = S754_finite s m (e - 15).
Proof.
  intros Hd He.
  unfold div, c32768, SFdiv, SFdiv_core_binary.
  cbn [Zdigits2]. rewrite Hd.
  change (Zpos (digits2_pos 8388608)) with 24.
  replace (fexp prec emax (24 + e - (24 + -8))) with (e - 16)
    by (unfold fexp, emin, prec, emax; lia).
  replace (Z.min (e - 16) (e - -8)) with (e - 16) by lia.
  replace (e - -8 - (e - 16)) with 24 by lia.
  rewrite div_eucl_shift.
  change (new_location 8388608 0) with loc_Exact.
  rewrite xorb_false_r.
  unfold binary_round_aux, shr_fexp.
  cbn [Zdigits2 digits2_pos shr_record_of_loc].
  rewrite Hd.
  replace (fexp prec emax (Z.pos (Pos.succ 24) + (e - 16)) - (e - 16)) with 1
    by (unfold fexp, emin, prec, emax; lia).
  cbn [shr SpecFloat.iter_pos shr_1 orb shr_m loc_of_shr_record
         round_nearest_even].
  cbn [Zdigits2]. rewrite Hd.
  replace (fexp prec emax (24 + (e - 16 + 1)) - (e - 16 + 1)) with 0
    by (unfold fexp, emin, prec, emax; lia).
  cbn [shr shr_m].
  destruct (Z.leb_spec (e - 16 + 1) (emax - prec)) as [_|Hgt];
    [| unfold emax, prec in Hgt; lia].
  f_equal. lia.
Qed.

(** [x / 32768.0f] for a non-zero integer [x] below 2^24 in magnitude: the
    mantissa is [|x|] shifted to 24 digits, the exponent the matching
    negative power of two, 15 lower than for [x] itself. *)
Lemma scaled_finite_form (x : Z) :
  x <> 0 -> - 2 ^ 24 < x < 2 ^ 24 ->
  exists m e,
    scaled x = S754_finite (x <? 0) m e
    /\ digits2_pos m = 24%positive
    /\ -38 <= e <= -15
    /\ Zpos m = Z.abs x * 2 ^ (- e - 15).
Proof.
  intros Hx0 Hx. unfold scaled, of_int, binary_normalize.
  destruct x as [|p|p]; [congruence | |].
  - destruct (binary_round_int false p ltac:(lia))
      as (m & e & -> & Hd & He & Hm).
    exists m, (e - 15). rewrite div_c32768 by (assumption || lia).
    repeat split; try assumption; try lia.
    rewrite Hm. cbn [Z.abs]. f_equal. f_equal. lia.
  - destruct (binary_round_int true p ltac:(lia))
      as (m & e & -> & Hd & He & Hm).
    exists m, (e - 15). rewrite div_c32768 by (assumption || lia).
    repeat split; try assumption; try lia.
    rewrite Hm. cbn [Z.abs]. f_equal. f_equal. lia.
Qed.

Lemma Qpower_2_neg (q : positive) : (2 ^ Zneg q == 1 # 2 ^ q)%Q.
Proof.
  rewrite (Qpower_decomp_neg_pos q 2 1). rewrite Z.pow_1_l by lia.
  reflexivity.
Qed.

Lemma to_Q_finite_neg (s : bool) (m q : positive) :
  (to_Q (S754_finite s m (Zneg q)) == cond_Zopp s (Zpos m) # 2 ^ q)%Q.
Proof.
  unfold to_Q. rewrite Qpower_2_neg.
  unfold Qeq, Qmult, inject_Z. cbn [Qnum Qden]. lia.
Qed.

(** The bit pattern of a normal number, and back. *)
Lemma to_bits_normal (s : bool) (m : positive) (e : Z) :
  digits2_pos m = 24%positive -> -149 <= e <= 104 ->
  0 <= to_bits (S754_finite s m e) < 2 ^ 32
  /\ of_bits (to_bits (S754_finite s m e)) = S754_finite s m e.
Proof.
  intros Hd He. pose proof (digits2_pos_bounds m) as Hm. rewrite Hd in Hm.
  change (2 ^ (24 - 1)) with 8388608 in Hm.
  change (2 ^ 24) with 16777216 in Hm.
  unfold to_bits.
  destruct (Z.ltb_spec (Zpos m) 8388608) as [Hlt|_]; [lia |].
  rewrite Z.shiftl_mul_pow2 by lia. change (2 ^ 23) with 8388608.
  set (sg := if s then 2147483648 else 0).
  set (w := sg + (e + 150) * 8388608 + (Zpos m - 8388608)).
  assert (Hsg : sg = (if s then 1 else 0) * 2147483648)
    by (destruct s; reflexivity).
  split; [destruct s; cbn in Hsg; change (2 ^ 32) with 4294967296; lia |].
  unfold of_bits.
  assert (Hs : Z.testbit w 31 = s).
  { rewrite Z.testbit_odd, Z.shiftr_div_pow2 by lia.
    change (2 ^ 31) with 2147483648.
    rewrite <- (Z.div_unique w 2147483648 (if s then 1 else 0)
                  ((e + 150) * 8388608 + (Zpos m - 8388608)));
      [destruct s; reflexivity | lia | lia]. }
  assert (Hex : Z.land (Z.shiftr w 23) 255 = e + 150).
  { rewrite Z.shiftr_div_pow2 by lia. change 255 with (Z.ones 8).
    rewrite Z.land_ones by lia.
    change (2 ^ 23) with 8388608. change (2 ^ 8) with 256.
    rewrite <- (Z.div_unique w 8388608 ((if s then 256 else 0) + (e + 150))
                  (Zpos m - 8388608)); [| lia | destruct s; lia].
    symmetry. apply (Z.mod_unique _ 256 (if s then 1 else 0)); [lia |].
    destruct s; lia. }
  assert (Hfr : Z.land w 8388607 = Zpos m - 8388608).
  { change 8388607 with (Z.ones 23). rewrite Z.land_ones by lia.
    change (2 ^ 23) with 8388608.
    symmetry.
    apply (Z.mod_unique _ 8388608 ((if s then 256 else 0) + (e + 150)));
      [lia | destruct s; lia]. }
  rewrite Hs, Hex, Hfr.
  destruct (Z.eqb_spec (e + 150) 0); [lia |].
  destruct (Z.eqb_spec (e + 150) 255); [lia |].
  replace (Zpos m - 8388608 + 8388608) with (Zpos m) by lia.
  f_equal. lia.
Qed.

End F32Facts.

Section Scaled.

Import F32 F32Facts.

Variable x : Z.
Hypothesis x_range : - 2 ^ 24 < x < 2 ^ 24.

Lemma scaled_value : (to_Q (scaled x) == x # 32768)%Q.
Proof.
  destruct (Z.eq_dec x 0) as [->|Hx0]; [reflexivity |].
  destruct (scaled_finite_form x Hx0 x_range) as (m & e & -> & _ & He & Hm).
  destruct e as [|q|q]; try lia.
  rewrite to_Q_finite_neg. unfold Qeq. cbn [Qnum Qden].
  rewrite Pos2Z.inj_pow.
  replace (Zpos q) with ((- Zneg q - 15) + 15) by lia.
  rewrite Z.pow_add_r by lia. change (2 ^ 15) with 32768.
  assert (Hs : cond_Zopp (x <? 0) (Zpos m) = x * 2 ^ (- Zneg q - 15)).
  { rewrite Hm. unfold cond_Zopp.
    destruct (Z.ltb_spec x 0); [rewrite Z.abs_neq | rewrite Z.abs_eq]; lia. }
  rewrite Hs. ring.
Qed.

Lemma scaled_bits_range : 0 <= to_bits (scaled x) < 2 ^ 32.
Proof.
  destruct (Z.eq_dec x 0) as [->|Hx0]; [vm_compute; split; congruence |].
  destruct (scaled_finite_form x Hx0 x_range) as (m & e & -> & Hd & He & _).
  apply to_bits_normal; [exact Hd | lia].
Qed.

Lemma scaled_of_to_bits : of_bits (to_bits (scaled x)) = scaled x.
Proof.
  destruct (Z.eq_dec x 0) as [->|Hx0]; [reflexivity |].
  destruct (scaled_finite_form x Hx0 x_range) as (m & e & -> & Hd & He & _).
  apply to_bits_normal; [exact Hd | lia].
Qed.

End Scaled.

Lemma scaled_is_finite (x : Z) :
  - 2 ^ 24 < x < 2 ^ 24 -> f32_is_finite (F32.scaled x) = true.
Proof.
  intros Hx. destruct (Z.eq_dec x 0) as [->|Hx0]; [reflexivity |].
  destruct (F32Facts.scaled_finite_form x Hx0 Hx) as (m & e & -> & _).
  reflexivity.
Qed.

(** ** Memory *)

Lemma mem_at_is_Some (m : list byte) (a : Z) :
  0 <= a < Z.of_nat (length m) -> is_Some (mem_at m a).
Proof.
  intros Ha. unfold mem_at.
  destruct (Z.ltb_spec a 0); [lia |].
  apply lookup_lt_is_Some. lia.
Qed.

Lemma mem_at_Some_range (m : list byte) (a : Z) (b : byte) :
  mem_at m a = Some b -> 0 <= a < Z.of_nat (length m).
Proof.
  unfold mem_at. destruct (Z.ltb_spec a 0) as [Hlt|Hge]; [discriminate |].
  intros Hb. apply lookup_lt_Some in Hb. lia.
Qed.

Lemma mem_at_inserts_outside (m l : list byte) (a x : Z) :
  0 <= a -> ~ (a <= x < a + Z.of_nat (length l)) ->
  mem_at (list_inserts (Z.to_nat a) l m) x = mem_at m x.
Proof.
  intros Ha Hx. unfold mem_at.
  destruct (Z.ltb_spec x 0); [reflexivity |].
  destruct (Z.lt_ge_cases x a).
  - apply list_lookup_inserts_lt. lia.
  - apply list_lookup_inserts_ge. lia.
Qed.

Lemma mem_at_inserts_inside (m l : list byte) (a : Z) (k : nat) :
  0 <= a -> (k < length l)%nat ->
  a + Z.of_nat (length l) <= Z.of_nat (length m) ->
  mem_at (list_inserts (Z.to_nat a) l m) (a + Z.of_nat k) = l !! k.
Proof.
  intros Ha Hk Hlen. unfold mem_at.
  destruct (Z.ltb_spec (a + Z.of_nat k) 0); [lia |].
  rewrite list_lookup_inserts by lia.
  f_equal. lia.
Qed.

Lemma load_f32_ext (host : endianness) (m m' : list byte) (a : Z) :
  (forall k, 0 <= k < 4 -> mem_at m' (a + k) = mem_at m (a + k)) ->
  load_f32 host m' a = load_f32 host m a.
Proof.
  intros H. unfold load_f32.
  pose proof (H 0 ltac:(lia)) as H0. rewrite Z.add_0_r in H0.
  rewrite H0, (H 1), (H 2), (H 3) by lia. reflexivity.
Qed.

Lemma load_f32_inserts (host : endianness) (m : list byte) (a w : Z) :
  0 <= a -> a + 4 <= Z.of_nat (length m) -> 0 <= w < 2 ^ 32 ->
  load_f32 host (list_inserts (Z.to_nat a) (u32_to_bytes host w) m) a
  = Some (F32.of_bits w).
Proof.
  intros Ha Hlen Hw. unfold load_f32.
  pose proof (length_u32_to_bytes host w) as Hl.
  pose proof (u32_of_to_bytes host w) as Hrt.
  pose proof (fun k Hk =>
                mem_at_inserts_inside m (u32_to_bytes host w) a k Ha Hk)
    as Hin.
  rewrite Hl in Hin.
  pose proof (Hin 0%nat ltac:(lia) ltac:(lia)) as H0.
  pose proof (Hin 1%nat ltac:(lia) ltac:(lia)) as H1.
  pose proof (Hin 2%nat ltac:(lia) ltac:(lia)) as H2.
  pose proof (Hin 3%nat ltac:(lia) ltac:(lia)) as H3.
  change (Z.of_nat 0) with 0 in H0. rewrite Z.add_0_r in H0.
  change (Z.of_nat 1) with 1 in H1.
  change (Z.of_nat 2) with 2 in H2.
  change (Z.of_nat 3) with 3 in H3.
  rewrite H0, H1, H2, H3.
  destruct (u32_to_bytes host w) as [|b0 [|b1 [|b2 [|b3 [|]]]]];
    try discriminate Hl.
  simpl. rewrite Hrt, Z.mod_small by lia. reflexivity.
Qed.

(** ** The loop *)

Lemma to_size_t_small (i : Z) : 0 <= i <= CInt.INT_MAX -> CInt.to_size_t i = i.
Proof.
  intros Hi. unfold CInt.to_size_t, CInt.SIZE_MAX, CInt.INT_MAX in *.
  apply Z.mod_small. lia.
Qed.

Lemma int_arith_ok (z : Z) (s : state) :
  CInt.INT_MIN <= z <= CInt.INT_MAX -> int_arith z s = Ok (z, s).
Proof.
  intros Hz. unfold int_arith, CInt.in_int.
  destruct (Z.leb_spec CInt.INT_MIN z), (Z.leb_spec z CInt.INT_MAX);
    try lia; reflexivity.
Qed.

(** Total-correctness rule for the [for] loop: an invariant kept by the body
    on the indices below [n] holds at [n] when the loop ends, and the loop
    does end within [n - i] iterations. *)
Lemma for_int_rule (Inv : Z -> state -> Prop) (body : Z -> M unit) (n : Z) :
  n <= CInt.INT_MAX ->
  (forall i s, 0 <= i < n -> Inv i s ->
               exists s', body i s = Ok (tt, s') /\ Inv (i + 1) s') ->
  forall (k : nat) (i : Z) (s : state),
    0 <= i -> i + Z.of_nat k = n -> Inv i s ->
    exists s', for_int k n i body s = Ok (tt, s') /\ Inv n s'.
Proof.
  intros Hn Hbody k. induction k as [|k IH]; intros i s Hi Hk HInv.
  - simpl. rewrite to_size_t_small by lia.
    destruct (Z.ltb_spec i n); [lia |].
    exists s. replace n with i by lia. split; [reflexivity | exact HInv].
  - simpl. rewrite to_size_t_small by lia.
    destruct (Z.ltb_spec i n); [| lia].
    destruct (Hbody i s ltac:(lia) HInv) as (s1 & Hs1 & HInv1).
    unfold bind at 1. rewrite Hs1.
    unfold bind at 1. rewrite int_arith_ok by (unfold CInt.INT_MIN; lia).
    apply IH; [lia | lia | exact HInv1].
Qed.

Lemma to_int16_range (z : Z) : -32768 <= CInt.to_int16 z < 32768.
Proof.
  unfold CInt.to_int16.
  pose proof (Z.mod_pos_bound (z + 32768) 65536 eq_refl). lia.
Qed.

Lemma sample_int_range (p : path) (host : endianness) (b0 b1 : byte) :
  -32768 <= sample_int p host b0 b1 < 65536.
Proof.
  destruct p; simpl.
  - pose proof (u16_of_bytes_range host b0 b1). lia.
  - pose proof (to_int16_range
                  (Z.lor (Z.shiftl (byte_to_Z b0) 8) (byte_to_Z b1))). lia.
Qed.

Lemma store_addrs_app (tr1 tr2 : list event) :
  store_addrs (tr1 ++ tr2) = store_addrs tr1 ++ store_addrs tr2.
Proof. apply omap_app. Qed.

(** *** Primitive accesses *)

Lemma bind_ok {A B} (c : M A) (k : A -> M B) (s s' : state) (a : A) :
  c s = Ok (a, s') -> bind c k s = k a s'.
Proof. intros H. unfold bind. rewrite H. reflexivity. Qed.

Lemma read_byte_ok (a : Z) (s : state) (b : byte) :
  mem_at (st_mem s) a = Some b -> read_byte a s = Ok (b, s).
Proof. intros H. unfold read_byte. rewrite H. reflexivity. Qed.

Lemma load_u8_ok (a : Z) (m : list byte) (tr : list event) (b : byte) :
  mem_at m a = Some b ->
  load_u8 a (mkState m tr) = Ok (byte_to_Z b, mkState m (tr ++ [EvLoad a 1])).
Proof.
  intros H. unfold load_u8.
  rewrite (bind_ok _ _ _ _ _ (read_byte_ok a (mkState m tr) b H)).
  reflexivity.
Qed.

Lemma load_u16_ok (host : endianness) (a : Z) (m : list byte)
      (tr : list event) (b0 b1 : byte) :
  mem_at m a = Some b0 -> mem_at m (a + 1) = Some b1 ->
  load_u16 host a (mkState m tr)
  = Ok (u16_of_bytes host b0 b1, mkState m (tr ++ [EvLoad a 2])).
Proof.
  intros H0 H1. unfold load_u16.
  rewrite (bind_ok _ _ _ _ _ (read_byte_ok a (mkState m tr) b0 H0)).
  rewrite (bind_ok _ _ _ _ _ (read_byte_ok (a + 1) (mkState m tr) b1 H1)).
  reflexivity.
Qed.

Lemma store_f32_ok (host : endianness) (a : Z) (f : F32.float32)
      (m : list byte) (tr : list event) :
  0 <= a -> a + 4 <= Z.of_nat (length m) ->
  store_f32 host a f (mkState m tr)
  = Ok (tt, mkState (list_inserts (Z.to_nat a)
                       (u32_to_bytes host (F32.to_bits f)) m)
              (tr ++ [EvStore a f])).
Proof.
  intros H0 H1. unfold store_f32, bind, write_bytes, log.
  cbn [st_mem st_trace]. rewrite length_u32_to_bytes.
  change (Z.of_nat 4) with 4.
  destruct (Z.leb_spec 0 a); [| lia].
  destruct (Z.leb_spec (a + 4) (Z.of_nat (length m))); [| lia].
  reflexivity.
Qed.

(** One iteration, on either branch. *)
Lemma decode_body_ok (p : path) (host : endianness) (src dst n i : Z)
      (m : list byte) (tr : list event) (b0 b1 : byte) :
  0 <= i < n -> 2 * i + 1 <= CInt.INT_MAX ->
  mem_at m (src + 2 * i) = Some b0 ->
  mem_at m (src + 2 * i + 1) = Some b1 ->
  0 <= dst + 4 * i -> dst + 4 * i + 4 <= Z.of_nat (length m) ->
  let f := F32.scaled (sample_int p host b0 b1) in
  exists evs,
    decode_body p host src dst i (mkState m tr)
    = Ok (tt, mkState (list_inserts (Z.to_nat (dst + 4 * i))
                         (u32_to_bytes host (F32.to_bits f)) m)
                (tr ++ evs))
    /\ store_addrs evs = [dst + 4 * i]
    /\ Forall (event_ok p host src n) evs.
Proof.
  intros Hi Hmax H0 H1 Hd0 Hd1 f.
  destruct p; cbn [decode_body].
  - exists [EvLoad (src + 2 * i) 2; EvStore (dst + 4 * i) f].
    split; [| split].
    + unfold decode_fast_body.
      rewrite (bind_ok _ _ _ _ _ (load_u16_ok host _ m tr b0 b1 H0 H1)).
      rewrite store_f32_ok by lia.
      rewrite <- app_assoc. reflexivity.
    + reflexivity.
    + repeat constructor; cbn [event_ok]; try lia. exists b0, b1. reflexivity.
  - exists [EvLoad (src + 2 * i) 1; EvLoad (src + (2 * i + 1)) 1;
            EvStore (dst + 4 * i) f].
    replace (src + 2 * i + 1) with (src + (2 * i + 1)) in H1 by lia.
    split; [| split].
    + unfold decode_bytewise_body.
      rewrite (bind_ok _ _ _ _ _ (int_arith_ok (2 * i) _
                 ltac:(unfold CInt.INT_MIN; lia))).
      rewrite (bind_ok _ _ _ _ _ (load_u8_ok _ m tr b0 H0)).
      rewrite (bind_ok _ _ _ _ _ (int_arith_ok (2 * i + 1) _
                 ltac:(unfold CInt.INT_MIN; lia))).
      rewrite (bind_ok _ _ _ _ _ (load_u8_ok _ m _ b1 H1)).
      rewrite store_f32_ok by lia.
      rewrite <- !app_assoc. reflexivity.
    + reflexivity.
    + repeat constructor; cbn [event_ok]; try lia. exists b0, b1. reflexivity.
Qed.

(** ** The decoder *)

Section Decode.

Variables (p : path) (host : endianness) (src dst n : Z).
Variables (m0 : list byte) (tr0 : list event).
Hypothesis bounds : in_bounds m0 src dst n.

Lemma decode_inv_init :
  decode_inv p host src dst n m0 tr0 0 (mkState m0 tr0).
Proof.
  split; cbn [st_mem st_trace].
  - reflexivity.
  - reflexivity.
  - exists []. rewrite app_nil_r. repeat split. constructor.
  - intros _ j b0 b1 Hj. lia.
Qed.

Lemma decode_inv_step (i : Z) (s : state) :
  0 <= i < n -> decode_inv p host src dst n m0 tr0 i s ->
  exists s', decode_body p host src dst i s = Ok (tt, s')
             /\ decode_inv p host src dst n m0 tr0 (i + 1) s'.
Proof.
  intros Hi [Hlen Hframe (tr & Htr & Haddrs & Hev) Hdone].
  destruct s as [m tr1]. cbn [st_mem st_trace] in *. subst tr1.
  destruct bounds as (Hmem & Hn & Hs0 & Hs1 & Hd0 & Hd1).
  unfold CInt.SIZE_MAX in Hmem.
  destruct (mem_at_is_Some m (src + 2 * i) ltac:(lia)) as [b0 Hb0].
  destruct (mem_at_is_Some m (src + 2 * i + 1) ltac:(lia)) as [b1 Hb1].
  destruct (decode_body_ok p host src dst n i m (tr0 ++ tr) b0 b1)
    as (evs & Hrun & Hst & Hok);
    try assumption; try (unfold CInt.INT_MAX; lia).
  eexists. split; [exact Hrun |].
  pose proof (length_u32_to_bytes host
                (F32.to_bits (F32.scaled (sample_int p host b0 b1))))
    as Hl4.
  split; cbn [st_mem st_trace].
  - rewrite length_inserts. exact Hlen.
  - intros a Ha.
    rewrite mem_at_inserts_outside by (rewrite ?Hl4; lia).
    apply Hframe. lia.
  - exists (tr ++ evs). split; [symmetry; apply app_assoc | split].
    + rewrite store_addrs_app, Haddrs, Hst.
      rewrite (seqZ_app 0 i 1) by lia.
      rewrite fmap_app. reflexivity.
    + apply Forall_app. split; assumption.
  - intros Hdisj j c0 c1 Hj Hc0 Hc1.
    destruct (Z.eq_dec j i) as [->|Hne].
    + rewrite Hframe in Hb0, Hb1 by (unfold disjoint in Hdisj; lia).
      assert (c0 = b0) by congruence. assert (c1 = b1) by congruence.
      subst c0 c1.
      pose proof (sample_int_range p host b0 b1) as Hrange.
      rewrite load_f32_inserts;
        [| lia | lia | apply scaled_bits_range; lia].
      rewrite scaled_of_to_bits by lia.
      reflexivity.
    + rewrite <- (Hdone Hdisj j c0 c1) by (assumption || lia).
      apply load_f32_ext. intros k Hk.
      apply mem_at_inserts_outside; rewrite ?Hl4; lia.
Qed.

(** Either branch, run on buffers that lie inside the memory, returns and
    leaves the state described by the invariant at [n]. *)
Lemma decode_path_ok :
  exists s', decode_path p host src dst n (mkState m0 tr0) = Ok (tt, s')
             /\ decode_inv p host src dst n m0 tr0 n s'.
Proof.
  destruct bounds as (Hmem & Hn & Hs0 & Hs1 & Hd0 & Hd1).
  unfold CInt.SIZE_MAX in Hmem.
  assert (Hrule := for_int_rule (decode_inv p host src dst n m0 tr0)
                     (decode_body p host src dst) n
                     ltac:(unfold CInt.INT_MAX; lia) decode_inv_step
                     (Z.to_nat n) 0 (mkState m0 tr0)
                     ltac:(lia) ltac:(lia) decode_inv_init).
  destruct p; exact Hrule.
Qed.

End Decode.

Lemma vw_pcm16sleDecode_path (host : endianness) (src dst n : Z) :
  vw_pcm16sleDecode host src dst n
  = decode_path (path_of_host host) host src dst n.
Proof. destruct host; reflexivity. Qed.

(** What either branch leaves in [dst], as a function of the input bytes. *)
Lemma decode_path_spec (p : path) (host : endianness) (src dst n : Z)
      (m : list byte) (tr : list event) :
  in_bounds m src dst n -> disjoint src dst n ->
  exists s',
    decode_path p host src dst n (mkState m tr) = Ok (tt, s')
    /\ forall i, 0 <= i < n ->
         exists b0 b1,
           mem_at m (src + 2 * i) = Some b0
           /\ mem_at m (src + 2 * i + 1) = Some b1
           /\ load_f32 host (st_mem s') (dst + 4 * i)
              = Some (F32.scaled (sample_int p host b0 b1)).
Proof.
  intros Hb Hd.
  destruct (decode_path_ok p host src dst n m tr Hb) as (s' & Hrun & HInv).
  exists s'. split; [exact Hrun |].
  intros i Hi.
  destruct Hb as (Hmem & Hn & Hs0 & Hs1 & Hd0 & Hd1).
  destruct (mem_at_is_Some m (src + 2 * i) ltac:(lia)) as [b0 Hb0].
  destruct (mem_at_is_Some m (src + 2 * i + 1) ltac:(lia)) as [b1 Hb1].
  exists b0, b1. repeat split; try assumption.
  apply (inv_done _ _ _ _ _ _ _ _ _ HInv Hd i b0 b1 Hi Hb0 Hb1).
Qed.

Lemma sample_int_fast_little (b0 b1 : byte) :
  sample_int Fast LittleEndian b0 b1 = byte_to_Z b0 + 256 * byte_to_Z b1.
Proof. apply u16_of_bytes_little. Qed.

Lemma sample_int_bytewise (host : endianness) (b0 b1 : byte) :
  sample_int Bytewise host b0 b1
  = CInt.to_int16 (256 * byte_to_Z b0 + byte_to_Z b1).
Proof.
  cbn [sample_int]. f_equal.
  change (Z.lor (Z.shiftl (byte_to_Z b0) 8) (byte_to_Z b1))
    with (u16_of_bytes BigEndian b0 b1).
  apply u16_of_bytes_big.
Qed.

Lemma stored_values_app (tr1 tr2 : list event) :
  stored_values (tr1 ++ tr2) = stored_values tr1 ++ stored_values tr2.
Proof. apply omap_app. Qed.

Lemma stored_values_ok (p : path) (host : endianness) (src n : Z)
      (tr : list event) :
  Forall (event_ok p host src n) tr ->
  Forall (fun f => exists b0 b1 : byte,
              f = F32.scaled (sample_int p host b0 b1))
    (stored_values tr).
Proof.
  induction 1 as [|ev tr Hev _ IH]; [constructor |].
  destruct ev as [a sz|a f]; cbn; [exact IH |].
  constructor; [exact Hev | exact IH].
Qed.

(** *** The fuel is enough

    The loops are given [numSamples] iterations of fuel.  Whatever the
    arguments, the decoder does not stop for want of fuel: it returns or its
    behaviour is undefined. *)

Lemma bind_fuel {A B} (c : M A) (k : A -> M B) :
  (forall s, c s <> OutOfFuel) -> (forall a s, k a s <> OutOfFuel) ->
  forall s, bind c k s <> OutOfFuel.
Proof.
  intros Hc Hk s. unfold bind. pose proof (Hc s) as H.
  destruct (c s) as [[a s1]| |]; [apply Hk | discriminate | congruence].
Qed.

Lemma read_byte_fuel (a : Z) (s : state) : read_byte a s <> OutOfFuel.
Proof. unfold read_byte. destruct (mem_at (st_mem s) a); discriminate. Qed.

Lemma write_bytes_fuel (a : Z) (l : list byte) (s : state) :
  write_bytes a l s <> OutOfFuel.
Proof. unfold write_bytes. destruct (_ && _); discriminate. Qed.

Lemma int_arith_fuel (z : Z) (s : state) : int_arith z s <> OutOfFuel.
Proof. unfold int_arith. destruct (CInt.in_int z); discriminate. Qed.

Ltac never_out_of_fuel :=
  repeat (apply bind_fuel; intros);
  first [ apply read_byte_fuel | apply write_bytes_fuel
        | apply int_arith_fuel | discriminate ].

Lemma decode_body_fuel (p : path) (host : endianness) (src dst i : Z)
      (s : state) :
  decode_body p host src dst i s <> OutOfFuel.
Proof.
  revert s. destruct p; cbn [decode_body].
  - unfold decode_fast_body, load_u16, store_f32. never_out_of_fuel.
  - unfold decode_bytewise_body, load_u8, store_f32. never_out_of_fuel.
Qed.

Lemma for_int_fuel (body : Z -> M unit) (n : Z) :
  (forall i s, body i s <> OutOfFuel) ->
  forall (k : nat) (i : Z) (s : state),
    0 <= i <= CInt.INT_MAX -> n <= i + Z.of_nat k ->
    for_int k n i body s <> OutOfFuel.
Proof.
  intros Hbody k. induction k as [|k IH]; intros i s Hi Hk.
  - simpl. rewrite to_size_t_small by lia.
    destruct (Z.ltb_spec i n); [lia | discriminate].
  - simpl. rewrite to_size_t_small by lia.
    destruct (Z.ltb_spec i n); [| discriminate].
    unfold bind at 1. pose proof (Hbody i s) as Hb.
    destruct (body i s) as [[[] s1]| |]; [| discriminate | congruence].
    unfold bind at 1, int_arith, CInt.in_int.
    destruct (Z.leb_spec CInt.INT_MIN (i + 1)),
      (Z.leb_spec (i + 1) CInt.INT_MAX); cbn [andb]; try discriminate.
    apply IH; lia.
Qed.

Lemma decode_fuel (host : endianness) (src dst numSamples : Z) (s : state) :
  vw_pcm16sleDecode host src dst numSamples s <> OutOfFuel.
Proof.
  rewrite vw_pcm16sleDecode_path.
  assert (H := for_int_fuel
                 (decode_body (path_of_host host) host src dst) numSamples
                 (decode_body_fuel (path_of_host host) host src dst)
                 (Z.to_nat numSamples) 0 s
                 ltac:(unfold CInt.INT_MAX; lia) ltac:(lia)).
  destruct (path_of_host host); exact H.
Qed.

(** ** What the decoder does to the memory *)

(** C6.  With [numSamples = 0] the decoder returns at once: it makes no
    access, so the memory and the access trace are the ones it was given,
    whatever the two addresses and the host byte order. *)
Theorem decode_zero_samples (host : endianness) (src dst : Z) (s : state) :
  vw_pcm16sleDecode host src dst 0 s = Ok (tt, s).
Proof. destruct host; reflexivity. Qed.

(** C9.  On buffers that lie inside the memory the decoder returns; no
    byte outside [dst[0..numSamples)] is changed; the stores it makes are
    exactly one to each of [dst[0]], ..., [dst[numSamples-1]], in this
    order.  When the two buffers do not overlap, the input bytes are left
    as they were and every [dst[i]] below [numSamples] is overwritten: it
    holds the float [x / 32768.0f] for the integer [x] that the branch
    taken on this host assembles from the input bytes at offsets [2 * i]
    and [2 * i + 1]. *)
Theorem decode_frame (host : endianness) (src dst n : Z)
        (m : list byte) (tr : list event) :
  in_bounds m src dst n ->
  exists s',
    vw_pcm16sleDecode host src dst n (mkState m tr) = Ok (tt, s')
    /\ length (st_mem s') = length m
    /\ (forall a, ~ (dst <= a < dst + 4 * n) ->
                  mem_at (st_mem s') a = mem_at m a)
    /\ (exists tr', st_trace s' = tr ++ tr'
                    /\ store_addrs tr' = (fun i => dst + 4 * i) <$> seqZ 0 n)
    /\ (disjoint src dst n ->
        (forall k, 0 <= k < 2 * n ->
                   mem_at (st_mem s') (src + k) = mem_at m (src + k))
        /\ (forall i, 0 <= i < n ->
              exists b0 b1,
                mem_at m (src + 2 * i) = Some b0
                /\ mem_at m (src + 2 * i + 1) = Some b1
                /\ load_f32 host (st_mem s') (dst + 4 * i)
                   = Some (F32.scaled
                             (sample_int (path_of_host host) host b0 b1)))).
Proof.
  intros Hb. rewrite vw_pcm16sleDecode_path.
  destruct (decode_path_ok (path_of_host host) host src dst n m tr Hb)
    as (s' & Hrun & [Hlen Hframe (tr' & Htr & Haddrs & _) Hdone]).
  exists s'.
  split; [exact Hrun |]. split; [exact Hlen |]. split; [exact Hframe |].
  split; [exists tr'; split; assumption |].
  intros Hdisj. split.
  - intros k Hk. apply Hframe. unfold disjoint in Hdisj. lia.
  - intros i Hi.
    destruct Hb as (Hmem & Hn & Hs0 & Hs1 & Hd0 & Hd1).
    destruct (mem_at_is_Some m (src + 2 * i) ltac:(lia)) as [b0 Hb0].
    destruct (mem_at_is_Some m (src + 2 * i + 1) ltac:(lia)) as [b1 Hb1].
    exists b0, b1.
    split; [exact Hb0 | split; [exact Hb1 |]].
    apply (Hdone Hdisj i b0 b1 Hi Hb0 Hb1).
Qed.

Lemma decode_frame_witness :
  in_bounds mem_one_sample 0 4 1 /\
  exists s',
    vw_pcm16sleDecode LittleEndian 0 4 1 (mkState mem_one_sample [])
    = Ok (tt, s')
    /\ length (st_mem s') = length mem_one_sample
    /\ (forall a, ~ (4 <= a < 4 + 4 * 1) ->
                  mem_at (st_mem s') a = mem_at mem_one_sample a)
    /\ (exists tr', st_trace s' = [] ++ tr'
                    /\ store_addrs tr' = (fun i => 4 + 4 * i) <$> seqZ 0 1)
    /\ (disjoint 0 4 1 ->
        (forall k, 0 <= k < 2 * 1 ->
                   mem_at (st_mem s') (0 + k) = mem_at mem_one_sample (0 + k))
        /\ (forall i, 0 <= i < 1 ->
              exists b0 b1,
                mem_at mem_one_sample (0 + 2 * i) = Some b0
                /\ mem_at mem_one_sample (0 + 2 * i + 1) = Some b1
                /\ load_f32 LittleEndian (st_mem s') (4 + 4 * i)
                   = Some (F32.scaled
                             (sample_int (path_of_host LittleEndian)
                                LittleEndian b0 b1)))).
Proof.
  assert (Hb : in_bounds mem_one_sample 0 4 1)
    by (unfold in_bounds, CInt.SIZE_MAX; simpl; lia).
  split; [exact Hb |].
  exact (decode_frame LittleEndian 0 4 1 mem_one_sample [] Hb).
Defined.

(** C8.  The decoder keeps no state of its own: called twice in a row on
    the same input bytes and sample count, once for each of two separate
    output buffers, both calls return and the two buffers then hold the
    same floats. *)
Theorem decode_twice_same_output (host : endianness) (src dst1 dst2 n : Z)
        (m : list byte) (tr : list event) :
  in_bounds m src dst1 n -> in_bounds m src dst2 n ->
  disjoint src dst1 n -> disjoint src dst2 n ->
  dst1 + 4 * n <= dst2 \/ dst2 + 4 * n <= dst1 ->
  exists s1 s2,
    vw_pcm16sleDecode host src dst1 n (mkState m tr) = Ok (tt, s1)
    /\ vw_pcm16sleDecode host src dst2 n s1 = Ok (tt, s2)
    /\ forall i, 0 <= i < n ->
         exists f,
           load_f32 host (st_mem s2) (dst1 + 4 * i) = Some f
           /\ load_f32 host (st_mem s2) (dst2 + 4 * i) = Some f.
Proof.
  intros Hb1 Hb2 Hd1 Hd2 Hsep. rewrite !vw_pcm16sleDecode_path.
  set (p := path_of_host host).
  destruct (decode_path_ok p host src dst1 n m tr Hb1)
    as ([m1 tr1] & Hrun1 & [Hlen1 Hframe1 _ Hdone1]).
  cbn [st_mem st_trace] in *.
  assert (Hb2' : in_bounds m1 src dst2 n).
  { unfold in_bounds in *. rewrite Hlen1. exact Hb2. }
  destruct (decode_path_ok p host src dst2 n m1 tr1 Hb2')
    as (s2 & Hrun2 & [Hlen2 Hframe2 _ Hdone2]).
  cbn [st_mem st_trace] in *.
  exists (mkState m1 tr1), s2. split; [exact Hrun1 | split; [exact Hrun2 |]].
  intros i Hi.
  destruct Hb1 as (Hmem & Hn & Hs0 & Hs1 & _ & _).
  destruct (mem_at_is_Some m (src + 2 * i) ltac:(lia)) as [b0 Hb0].
  destruct (mem_at_is_Some m (src + 2 * i + 1) ltac:(lia)) as [b1 Hb1].
  exists (F32.scaled (sample_int p host b0 b1)). split.
  - rewrite <- (Hdone1 Hd1 i b0 b1 Hi Hb0 Hb1).
    apply load_f32_ext. intros k Hk. apply Hframe2. lia.
  - apply (Hdone2 Hd2 i b0 b1 Hi).
    + rewrite Hframe1 by (unfold disjoint in Hd1; lia). exact Hb0.
    + rewrite Hframe1 by (unfold disjoint in Hd1; lia). exact Hb1.
Qed.

Lemma decode_twice_same_output_witness :
  in_bounds mem_two_outputs 0 4 1 /\ in_bounds mem_two_outputs 0 8 1 /\
  disjoint 0 4 1 /\ disjoint 0 8 1 /\
  (4 + 4 * 1 <= 8 \/ 8 + 4 * 1 <= 4) /\
  exists s1 s2,
    vw_pcm16sleDecode LittleEndian 0 4 1 (mkState mem_two_outputs [])
    = Ok (tt, s1)
    /\ vw_pcm16sleDecode LittleEndian 0 8 1 s1 = Ok (tt, s2)
    /\ forall i, 0 <= i < 1 ->
         exists f,
           load_f32 LittleEndian (st_mem s2) (4 + 4 * i) = Some f
           /\ load_f32 LittleEndian (st_mem s2) (8 + 4 * i) = Some f.
Proof.
  assert (Hb1 : in_bounds mem_two_outputs 0 4 1)
    by (unfold in_bounds, CInt.SIZE_MAX; simpl; lia).
  assert (Hb2 : in_bounds mem_two_outputs 0 8 1)
    by (unfold in_bounds, CInt.SIZE_MAX; simpl; lia).
  assert (Hd1 : disjoint 0 4 1) by (unfold disjoint; lia).
  assert (Hd2 : disjoint 0 8 1) by (unfold disjoint; lia).
  assert (Hsep : 4 + 4 * 1 <= 8 \/ 8 + 4 * 1 <= 4) by lia.
  repeat (split; [assumption |]).
  exact (decode_twice_same_output LittleEndian 0 4 8 1 mem_two_outputs []
           Hb1 Hb2 Hd1 Hd2 Hsep).
Defined.

(** C10.  On a little-endian host the decoder takes the first branch, which
    reads each sample as an unsigned 16-bit integer [u] and stores
    [u / 32768.0f]: every float it writes is that quotient, a finite float
    of value [u / 32768], at least 0 and below 2. *)
Theorem decode_little_range (src dst n : Z) (m : list byte)
        (tr : list event) :
  in_bounds m src dst n ->
  exists s' tr',
    vw_pcm16sleDecode LittleEndian src dst n (mkState m tr) = Ok (tt, s')
    /\ st_trace s' = tr ++ tr'
    /\ Forall (fun f =>
                 (exists u : Z,
                     (0 <= u < 65536)%Z /\ f = F32.scaled u
                     /\ (F32.to_Q f == u # 32768)%Q)
                 /\ f32_is_finite f = true
                 /\ (0 <= F32.to_Q f)%Q /\ (F32.to_Q f < 2)%Q)
         (stored_values tr').
Proof.
  intros Hb. rewrite vw_pcm16sleDecode_path.
  change (path_of_host LittleEndian) with Fast.
  destruct (decode_path_ok Fast LittleEndian src dst n m tr Hb)
    as (s' & Hrun & [_ _ (tr' & Htr & _ & Hev) _]).
  exists s', tr'. split; [exact Hrun | split; [exact Htr |]].
  apply stored_values_ok in Hev.
  eapply Forall_impl; [exact Hev |].
  intros f (b0 & b1 & ->). cbn [sample_int].
  pose proof (u16_of_bytes_range LittleEndian b0 b1) as Hu.
  generalize dependent (u16_of_bytes LittleEndian b0 b1). intros u Hu.
  pose proof (scaled_value u ltac:(lia)) as Hq.
  split; [exists u; split; [exact Hu | split; [reflexivity | exact Hq]] |].
  split; [apply scaled_is_finite; lia |].
  rewrite Hq. unfold Qle, Qlt. cbn [Qnum Qden]. lia.
Qed.

Lemma decode_little_range_witness :
  in_bounds mem_one_sample 0 4 1 /\
  exists s' tr',
    vw_pcm16sleDecode LittleEndian 0 4 1 (mkState mem_one_sample [])
    = Ok (tt, s')
    /\ st_trace s' = [] ++ tr'
    /\ Forall (fun f =>
                 (exists u : Z,
                     (0 <= u < 65536)%Z /\ f = F32.scaled u
                     /\ (F32.to_Q f == u # 32768)%Q)
                 /\ f32_is_finite f = true
                 /\ (0 <= F32.to_Q f)%Q /\ (F32.to_Q f < 2)%Q)
         (stored_values tr').
Proof.
  assert (Hb : in_bounds mem_one_sample 0 4 1)
    by (unfold in_bounds, CInt.SIZE_MAX; simpl; lia).
  split; [exact Hb |].
  exact (decode_little_range 0 4 1 mem_one_sample [] Hb).
Defined.

(** ** What the decoder computes

    On a little-endian host [dst[i]] receives the unsigned little-endian
    reading of the two bytes, divided by 32768; on a big-endian host the
    signed big-endian reading, divided by 32768. *)




(** ** Where the decoder departs from its documentation

    The header comment of [vw_pcm16sleDecode] reads "Decode PCM 16-bit
    signed little-endian audio data to float32".  The first branch reads
    the samples as [uint16_t], so without their sign; the second branch
    shifts the byte at the lower address to the high-order position, so in
    big-endian order.  The theorems below run the decoder on small
    memories. *)

Ltac run_decoder H :=
  vm_compute in H; injection H as <-.

(** C1.  The bytes [0xFE, 0xFF] are the little-endian encoding of -2.  On a
    little-endian host the decoder leaves 65534/32768 in [dst[0]], on a
    big-endian host -257/32768, and on neither host -2/32768. *)
Theorem decode_negative_sample :
  take 2 mem_minus_two = int16_le_bytes (-2)
  /\ writes_sample LittleEndian mem_minus_two 0 4 1 0 (65534 # 32768)
  /\ ~ writes_sample LittleEndian mem_minus_two 0 4 1 0 (-2 # 32768)
  /\ writes_sample BigEndian mem_minus_two 0 4 1 0 (-257 # 32768)
  /\ ~ writes_sample BigEndian mem_minus_two 0 4 1 0 (-2 # 32768).
Proof.
  split; [reflexivity |].
  split; [| split; [| split]].
  - do 2 eexists. split; [vm_compute; reflexivity |].
    split; [vm_compute; reflexivity | vm_compute; reflexivity].
  - intros (s' & f & Hrun & Hload & Hq).
    run_decoder Hrun. run_decoder Hload. vm_compute in Hq. discriminate.
  - do 2 eexists. split; [vm_compute; reflexivity |].
    split; [vm_compute; reflexivity | vm_compute; reflexivity].
  - intros (s' & f & Hrun & Hload & Hq).
    run_decoder Hrun. run_decoder Hload. vm_compute in Hq. discriminate.
Qed.

(** C2.  On the input bytes [0x00, 0x80] the first branch writes 1.0 and
    the second branch writes 2^-8: run on the same memory and the same
    host, the two branches leave different bytes in [dst]. *)
Theorem decode_branches_differ :
  exists s1 s2,
    decode_fast LittleEndian 0 4 1 (mkState mem_min_sample []) = Ok (tt, s1)
    /\ decode_bytewise LittleEndian 0 4 1 (mkState mem_min_sample [])
       = Ok (tt, s2)
    /\ load_f32 LittleEndian (st_mem s1) 4
       = Some (S754_finite false 8388608 (-23))
    /\ load_f32 LittleEndian (st_mem s2) 4
       = Some (S754_finite false 8388608 (-31))
    /\ (F32.to_Q (S754_finite false 8388608 (-23)) == 1)%Q
    /\ (F32.to_Q (S754_finite false 8388608 (-31)) == 1 # 256)%Q
    /\ st_mem s1 <> st_mem s2.
Proof.
  do 2 eexists.
  split; [vm_compute; reflexivity |].
  split; [vm_compute; reflexivity |].
  split; [vm_compute; reflexivity |].
  split; [vm_compute; reflexivity |].
  split; [vm_compute; reflexivity |].
  split; [vm_compute; reflexivity |].
  vm_compute. discriminate.
Qed.

(** C3.  With [0x01] at offset 0 and [0x80] at offset 1, the 16-bit signed
    integer whose low-order byte is the first and whose high-order byte is
    the second is -32767.  The first branch divides 32769 (the bytes in
    that order, but unsigned) and the second branch divides 384 (signed,
    but with the first byte as the high-order one). *)
Theorem decode_byte_order_and_sign :
  CInt.to_int16 (1 + 256 * 128) = -32767
  /\ exists s1 s2,
       decode_fast LittleEndian 0 4 1 (mkState mem_low_high []) = Ok (tt, s1)
       /\ stored_values (st_trace s1) = [F32.scaled 32769]
       /\ decode_bytewise BigEndian 0 4 1 (mkState mem_low_high [])
          = Ok (tt, s2)
       /\ stored_values (st_trace s2) = [F32.scaled 384]
       /\ F32.scaled 32769 <> F32.scaled (-32767)
       /\ F32.scaled 384 <> F32.scaled (-32767).
Proof.
  split; [reflexivity |].
  do 2 eexists.
  split; [vm_compute; reflexivity |].
  split; [vm_compute; reflexivity |].
  split; [vm_compute; reflexivity |].
  split; [vm_compute; reflexivity |].
  split; vm_compute; discriminate.
Qed.

(** C4.  On a little-endian host the bytes [0x00, 0x80] decode to +1.0, not
    to -1.0; the bytes [0x00, 0x00] decode to 0.0 and the bytes
    [0xFF, 0x7F] to 32767/32768. *)
Theorem decode_boundary_samples :
  writes_sample LittleEndian mem_boundaries 0 8 3 0 1
  /\ ~ writes_sample LittleEndian mem_boundaries 0 8 3 0 (-1)
  /\ writes_sample LittleEndian mem_boundaries 0 8 3 1 0
  /\ writes_sample LittleEndian mem_boundaries 0 8 3 2 (32767 # 32768).
Proof.
  split; [| split; [| split]].
  - do 2 eexists. split; [vm_compute; reflexivity |].
    split; [vm_compute; reflexivity | vm_compute; reflexivity].
  - intros (s' & f & Hrun & Hload & Hq).
    run_decoder Hrun. run_decoder Hload. vm_compute in Hq. discriminate.
  - do 2 eexists. split; [vm_compute; reflexivity |].
    split; [vm_compute; reflexivity | vm_compute; reflexivity].
  - do 2 eexists. split; [vm_compute; reflexivity |].
    split; [vm_compute; reflexivity | vm_compute; reflexivity].
Qed.

(** C5.  On a little-endian host the bytes [0xFF, 0xFF] make the decoder
    write 65535/32768, which is not below 1.0. *)
Theorem decode_little_above_one :
  exists s' f,
    vw_pcm16sleDecode LittleEndian 0 4 1 (mkState mem_all_ones [])
    = Ok (tt, s')
    /\ stored_values (st_trace s') = [f]
    /\ load_f32 LittleEndian (st_mem s') 4 = Some f
    /\ (F32.to_Q f == 65535 # 32768)%Q
    /\ ~ (F32.to_Q f < 1)%Q.
Proof.
  do 2 eexists.
  split; [vm_compute; reflexivity |].
  split; [vm_compute; reflexivity |].
  split; [vm_compute; reflexivity |].
  split; [vm_compute; reflexivity |].
  vm_compute. discriminate.
Qed.

(** ** The buffer provisioner *)

Section ProvisionerFacts.

Import Provisioner.

Variable heap : Type.
Variable malloc : Z -> heap -> Z * heap.

(** The contract of the memory manager of the host: [can_satisfy h n] says
    that a request of [n] bytes can be served in the heap [h], and
    [usable h p n] that the [n] bytes at [p] are allocated in [h]. *)
Variable can_satisfy : heap -> Z -> Prop.
Variable usable : heap -> Z -> Z -> Prop.

Hypothesis malloc_null :
  forall n h, fst (malloc n h) = NULL <-> ~ can_satisfy h n.
Hypothesis malloc_usable :
  forall n h, fst (malloc n h) <> NULL ->
              usable (snd (malloc n h)) (fst (malloc n h)) n.

(** C7.  [vw_alloc] makes one call to [malloc], with its own argument, and
    returns what that call returns: the null address exactly when the
    memory manager cannot satisfy the request, and otherwise a non-null
    address of [numBytes] usable bytes. *)
Theorem vw_alloc_propagates (numBytes : Z) (h : host heap) :
  let r := vw_alloc heap malloc numBytes h in
  (fst r, host_heap heap (snd r)) = malloc numBytes (host_heap heap h)
  /\ host_calls heap (snd r) = host_calls heap h ++ [CallMalloc numBytes]
  /\ (fst r = NULL <-> ~ can_satisfy (host_heap heap h) numBytes)
  /\ (fst r <> NULL -> usable (host_heap heap (snd r)) (fst r) numBytes).
Proof.
  unfold vw_alloc, call_malloc.
  pose proof (malloc_null numBytes (host_heap heap h)) as Hnull.
  pose proof (malloc_usable numBytes (host_heap heap h)) as Huse.
  destruct (malloc numBytes (host_heap heap h)) as [ptr hp].
  cbn [fst snd host_heap host_calls] in *.
  repeat split; try assumption; apply Hnull.
Qed.

End ProvisionerFacts.

Lemma bump_malloc_null (n brk : Z) :
  fst (Provisioner.bump_malloc n brk) = Provisioner.NULL
  <-> ~ Provisioner.bump_can_satisfy brk n.
Proof.
  unfold Provisioner.bump_malloc, Provisioner.bump_can_satisfy,
    Provisioner.NULL.
  destruct (Z.ltb_spec 0 brk), (Z.leb_spec 0 n),
    (Z.leb_spec (brk + n) 65536); cbn [andb fst]; lia.
Qed.

Lemma bump_malloc_usable (n brk : Z) :
  fst (Provisioner.bump_malloc n brk) <> Provisioner.NULL ->
  Provisioner.bump_usable (snd (Provisioner.bump_malloc n brk))
    (fst (Provisioner.bump_malloc n brk)) n.
Proof.
  unfold Provisioner.bump_malloc, Provisioner.bump_usable, Provisioner.NULL.
  destruct (Z.ltb_spec 0 brk), (Z.leb_spec 0 n),
    (Z.leb_spec (brk + n) 65536); cbn [andb fst snd]; lia.
Qed.

Lemma vw_alloc_propagates_witness :
  (forall n h, fst (Provisioner.bump_malloc n h) = Provisioner.NULL
               <-> ~ Provisioner.bump_can_satisfy h n)
  /\ (forall n h, fst (Provisioner.bump_malloc n h) <> Provisioner.NULL ->
                  Provisioner.bump_usable (snd (Provisioner.bump_malloc n h))
                    (fst (Provisioner.bump_malloc n h)) n)
  /\ let r := Provisioner.vw_alloc Z Provisioner.bump_malloc 16
                (Provisioner.mkHost Z 1024 []) in
     (fst r, Provisioner.host_heap Z (snd r))
     = Provisioner.bump_malloc 16 1024
     /\ Provisioner.host_calls Z (snd r) = [] ++ [Provisioner.CallMalloc 16]
     /\ (fst r = Provisioner.NULL
         <-> ~ Provisioner.bump_can_satisfy 1024 16)
     /\ (fst r <> Provisioner.NULL ->
         Provisioner.bump_usable (Provisioner.host_heap Z (snd r)) (fst r) 16).
Proof.
  split; [exact bump_malloc_null | split; [exact bump_malloc_usable |]].
  exact (vw_alloc_propagates Z Provisioner.bump_malloc
           Provisioner.bump_can_satisfy Provisioner.bump_usable
           bump_malloc_null bump_malloc_usable 16
           (Provisioner.mkHost Z 1024 [])).
Defined.

(** ** Further properties of the decoder *)

Lemma scaled_inj (x y : Z) :
  - 2 ^ 24 < x < 2 ^ 24 -> - 2 ^ 24 < y < 2 ^ 24 ->
  F32.scaled x = F32.scaled y -> x = y.
Proof.
  intros Hx Hy Heq.
  pose proof (scaled_value x Hx) as Vx.
  pose proof (scaled_value y Hy) as Vy.
  rewrite Heq, Vy in Vx. unfold Qeq in Vx. cbn [Qnum Qden] in Vx. lia.
Qed.

(** X8.  The expression [x / 32768.0f] loses nothing: for every operand
    that either branch can produce, the quotient is a finite float whose
    value is exactly [x / 32768], and different operands give different
    floats. *)
Theorem scaled_exact_lossless (x y : Z) :
  -32768 <= x < 65536 -> -32768 <= y < 65536 ->
  f32_is_finite (F32.scaled x) = true
  /\ (F32.to_Q (F32.scaled x) == x # 32768)%Q
  /\ (F32.scaled x = F32.scaled y -> x = y).
Proof.
  intros Hx Hy. split; [| split].
  - destruct (Z.eq_dec x 0) as [->|Hx0]; [reflexivity |].
    destruct (F32Facts.scaled_finite_form x Hx0 ltac:(lia))
      as (m & e & -> & _). reflexivity.
  - apply scaled_value. lia.
  - apply scaled_inj; lia.
Qed.

Lemma scaled_exact_lossless_witness :
  -32768 <= 65535 < 65536 /\ -32768 <= -1 < 65536 /\
  f32_is_finite (F32.scaled 65535) = true
  /\ (F32.to_Q (F32.scaled 65535) == 65535 # 32768)%Q
  /\ (F32.scaled 65535 = F32.scaled (-1) -> 65535 = -1).
Proof.
  assert (Hx : -32768 <= 65535 < 65536) by lia.
  assert (Hy : -32768 <= -1 < 65536) by lia.
  split; [exact Hx | split; [exact Hy |]].
  exact (scaled_exact_lossless 65535 (-1) Hx Hy).
Defined.



(** X4.  On a big-endian host the decoder takes the second branch, which
    converts the assembled integer to [int16_t]: every float it writes is
    [x / 32768.0f] for a signed 16-bit [x], a finite float of value
    [x / 32768], at least -1 and below 1. *)
Theorem decode_big_range (src dst n : Z) (m : list byte) (tr : list event) :
  in_bounds m src dst n ->
  exists s' tr',
    vw_pcm16sleDecode BigEndian src dst n (mkState m tr) = Ok (tt, s')
    /\ st_trace s' = tr ++ tr'
    /\ Forall (fun f =>
                 (exists x : Z,
                     (-32768 <= x < 32768)%Z /\ f = F32.scaled x
                     /\ (F32.to_Q f == x # 32768)%Q)
                 /\ f32_is_finite f = true
                 /\ (-1 <= F32.to_Q f)%Q /\ (F32.to_Q f < 1)%Q)
         (stored_values tr').
Proof.
  intros Hb. rewrite vw_pcm16sleDecode_path.
  change (path_of_host BigEndian) with Bytewise.
  destruct (decode_path_ok Bytewise BigEndian src dst n m tr Hb)
    as (s' & Hrun & [_ _ (tr' & Htr & _ & Hev) _]).
  exists s', tr'. split; [exact Hrun | split; [exact Htr |]].
  apply stored_values_ok in Hev.
  eapply Forall_impl; [exact Hev |].
  intros f (b0 & b1 & ->). cbn [sample_int].
  pose proof (to_int16_range
                (Z.lor (Z.shiftl (byte_to_Z b0) 8) (byte_to_Z b1))) as Hx.
  generalize dependent (CInt.to_int16
                          (Z.lor (Z.shiftl (byte_to_Z b0) 8) (byte_to_Z b1))).
  intros x Hx.
  pose proof (scaled_value x ltac:(lia)) as Hq.
  split; [exists x; split; [exact Hx | split; [reflexivity | exact Hq]] |].
  split; [apply scaled_is_finite; lia |].
  rewrite Hq. unfold Qle, Qlt. cbn [Qnum Qden]. lia.
Qed.

Lemma decode_big_range_witness :
  in_bounds mem_one_sample 0 4 1 /\
  exists s' tr',
    vw_pcm16sleDecode BigEndian 0 4 1 (mkState mem_one_sample [])
    = Ok (tt, s')
    /\ st_trace s' = [] ++ tr'
    /\ Forall (fun f =>
                 (exists x : Z,
                     (-32768 <= x < 32768)%Z /\ f = F32.scaled x
                     /\ (F32.to_Q f == x # 32768)%Q)
                 /\ f32_is_finite f = true
                 /\ (-1 <= F32.to_Q f)%Q /\ (F32.to_Q f < 1)%Q)
         (stored_values tr').
Proof.
  assert (Hb : in_bounds mem_one_sample 0 4 1)
    by (unfold in_bounds, CInt.SIZE_MAX; simpl; lia).
  split; [exact Hb |].
  exact (decode_big_range 0 4 1 mem_one_sample [] Hb).
Defined.


Lemma byte_to_Z_inj (b c : byte) : byte_to_Z b = byte_to_Z c -> b = c.
Proof.
  intros H. rewrite <- (byte_of_to_Z b), <- (byte_of_to_Z c), H. reflexivity.
Qed.

Lemma to_int16_unsigned (z : Z) :
  0 <= z < 65536 ->
  CInt.to_int16 z = if z <? 32768 then z else z - 65536.
Proof.
  intros Hz. unfold CInt.to_int16. destruct (Z.ltb_spec z 32768).
  - rewrite Z.mod_small by lia. lia.
  - rewrite <- (Z.mod_unique (z + 32768) 65536 1 (z - 32768)) by lia. lia.
Qed.

Lemma sample_int_agree (host : endianness) (b0 b1 : byte) :
  sample_int Fast LittleEndian b0 b1 = sample_int Bytewise host b0 b1
  <-> b0 = b1 /\ byte_to_Z b0 < 128.
Proof.
  rewrite sample_int_fast_little, sample_int_bytewise.
  pose proof (byte_to_Z_range b0) as H0.
  pose proof (byte_to_Z_range b1) as H1.
  rewrite to_int16_unsigned by lia. split.
  - intros H.
    assert (byte_to_Z b0 = byte_to_Z b1 /\ byte_to_Z b0 < 128)
      as [Heq Hlt]
      by (destruct (Z.ltb_spec (256 * byte_to_Z b0 + byte_to_Z b1) 32768);
          lia).
    split; [apply byte_to_Z_inj, Heq | exact Hlt].
  - intros [<- Hlt].
    destruct (Z.ltb_spec (256 * byte_to_Z b0 + byte_to_Z b0) 32768); lia.
Qed.

(** X9.  Where the two branches agree.  Run on the same memory of a
    little-endian host, the first and the second branch leave the same
    float in [dst[i]] exactly when the two bytes of sample [i] are equal
    and below [0x80]. *)
Theorem decode_branches_agree_iff (src dst n i : Z) (m : list byte)
        (tr : list event) (b0 b1 : byte) :
  in_bounds m src dst n -> disjoint src dst n -> 0 <= i < n ->
  mem_at m (src + 2 * i) = Some b0 ->
  mem_at m (src + 2 * i + 1) = Some b1 ->
  exists s1 s2,
    decode_fast LittleEndian src dst n (mkState m tr) = Ok (tt, s1)
    /\ decode_bytewise LittleEndian src dst n (mkState m tr) = Ok (tt, s2)
    /\ (load_f32 LittleEndian (st_mem s1) (dst + 4 * i)
        = load_f32 LittleEndian (st_mem s2) (dst + 4 * i)
        <-> b0 = b1 /\ byte_to_Z b0 < 128).
Proof.
  intros Hb Hd Hi H0 H1.
  destruct (decode_path_spec Fast LittleEndian src dst n m tr Hb Hd)
    as (s1 & Hrun1 & Hval1).
  destruct (decode_path_spec Bytewise LittleEndian src dst n m tr Hb Hd)
    as (s2 & Hrun2 & Hval2).
  exists s1, s2. split; [exact Hrun1 | split; [exact Hrun2 |]].
  destruct (Hval1 i Hi) as (c0 & c1 & Hc0 & Hc1 & ->).
  destruct (Hval2 i Hi) as (d0 & d1 & Hd0 & Hd1 & ->).
  assert (c0 = b0) by congruence. assert (c1 = b1) by congruence.
  assert (d0 = b0) by congruence. assert (d1 = b1) by congruence.
  subst c0 c1 d0 d1.
  rewrite <- (sample_int_agree LittleEndian b0 b1).
  pose proof (sample_int_range Fast LittleEndian b0 b1).
  pose proof (sample_int_range Bytewise LittleEndian b0 b1).
  split.
  - intros Heq. injection Heq as Heq. apply scaled_inj; [lia | lia | exact Heq].
  - intros ->. reflexivity.
Qed.

Lemma decode_branches_agree_iff_witness :
  in_bounds mem_one_sample 0 4 1 /\ disjoint 0 4 1 /\ 0 <= 0 < 1 /\
  mem_at mem_one_sample (0 + 2 * 0) = Some (byte_of_Z 52) /\
  mem_at mem_one_sample (0 + 2 * 0 + 1) = Some (byte_of_Z 18) /\
  exists s1 s2,
    decode_fast LittleEndian 0 4 1 (mkState mem_one_sample []) = Ok (tt, s1)
    /\ decode_bytewise LittleEndian 0 4 1 (mkState mem_one_sample [])
       = Ok (tt, s2)
    /\ (load_f32 LittleEndian (st_mem s1) (4 + 4 * 0)
        = load_f32 LittleEndian (st_mem s2) (4 + 4 * 0)
        <-> byte_of_Z 52 = byte_of_Z 18 /\ byte_to_Z (byte_of_Z 52) < 128).
Proof.
  assert (Hb : in_bounds mem_one_sample 0 4 1)
    by (unfold in_bounds, CInt.SIZE_MAX; simpl; lia).
  assert (Hd : disjoint 0 4 1) by (unfold disjoint; lia).
  assert (Hi : 0 <= 0 < 1) by lia.
  assert (H0 : mem_at mem_one_sample (0 + 2 * 0) = Some (byte_of_Z 52))
    by reflexivity.
  assert (H1 : mem_at mem_one_sample (0 + 2 * 0 + 1) = Some (byte_of_Z 18))
    by reflexivity.
  repeat (split; [assumption |]).
  exact (decode_branches_agree_iff 0 4 1 0 mem_one_sample []
           (byte_of_Z 52) (byte_of_Z 18) Hb Hd Hi H0 H1).
Defined.

(** *** Undersized buffers *)

Lemma bind_inv {A B} (c : M A) (k : A -> M B) (s : state) (r : B * state) :
  bind c k s = Ok r -> exists a s1, c s = Ok (a, s1) /\ k a s1 = Ok r.
Proof.
  unfold bind. destruct (c s) as [[a s1]| |]; try discriminate.
  intros H. exists a, s1. split; [reflexivity | exact H].
Qed.

Lemma read_byte_inv (a : Z) (s s1 : state) (b : byte) :
  read_byte a s = Ok (b, s1) -> s1 = s /\ mem_at (st_mem s) a = Some b.
Proof.
  unfold read_byte. destruct (mem_at (st_mem s) a); [| discriminate].
  intros H. injection H as -> ->. split; reflexivity.
Qed.

Lemma int_arith_inv (z z' : Z) (s s1 : state) :
  int_arith z s = Ok (z', s1) ->
  z' = z /\ s1 = s /\ CInt.INT_MIN <= z <= CInt.INT_MAX.
Proof.
  unfold int_arith, CInt.in_int.
  destruct (Z.leb_spec CInt.INT_MIN z), (Z.leb_spec z CInt.INT_MAX);
    cbn [andb]; try discriminate.
  intros Heq. injection Heq as -> ->. repeat split; assumption.
Qed.

Lemma load_u8_inv (a x : Z) (s s1 : state) :
  load_u8 a s = Ok (x, s1) ->
  st_mem s1 = st_mem s /\ 0 <= a < Z.of_nat (length (st_mem s)).
Proof.
  unfold load_u8. intros H.
  apply bind_inv in H as (b & s2 & Hr & H).
  apply read_byte_inv in Hr as [-> Hb].
  apply mem_at_Some_range in Hb.
  unfold bind, log, ret in H. injection H as _ <-.
  split; [reflexivity | exact Hb].
Qed.

Lemma load_u16_inv (host : endianness) (a x : Z) (s s1 : state) :
  load_u16 host a s = Ok (x, s1) ->
  st_mem s1 = st_mem s /\ 0 <= a /\ a + 1 < Z.of_nat (length (st_mem s)).
Proof.
  unfold load_u16. intros H.
  apply bind_inv in H as (b0 & s2 & Hr0 & H).
  apply read_byte_inv in Hr0 as [-> Hb0].
  apply bind_inv in H as (b1 & s3 & Hr1 & H).
  apply read_byte_inv in Hr1 as [-> Hb1].
  apply mem_at_Some_range in Hb0, Hb1.
  unfold bind, log, ret in H. injection H as _ <-.
  split; [reflexivity | lia].
Qed.

Lemma store_f32_inv (host : endianness) (a : Z) (f : F32.float32)
      (s s1 : state) :
  store_f32 host a f s = Ok (tt, s1) ->
  length (st_mem s1) = length (st_mem s)
  /\ 0 <= a /\ a + 4 <= Z.of_nat (length (st_mem s)).
Proof.
  unfold store_f32. intros H.
  apply bind_inv in H as ([] & s2 & Hw & H).
  unfold write_bytes in Hw. rewrite length_u32_to_bytes in Hw.
  destruct (Z.leb_spec 0 a), (Z.leb_spec (a + Z.of_nat 4)
                                 (Z.of_nat (length (st_mem s))));
    cbn [andb] in Hw; try discriminate.
  injection Hw as <-. unfold log in H. injection H as <-.
  cbn [st_mem]. rewrite length_inserts. split; [reflexivity | lia].
Qed.

(** An iteration that returns has found its two input bytes and its output
    float inside the memory. *)
Lemma decode_body_inv (p : path) (host : endianness) (src dst i : Z)
      (s s1 : state) :
  decode_body p host src dst i s = Ok (tt, s1) ->
  length (st_mem s1) = length (st_mem s)
  /\ 0 <= src + 2 * i /\ src + 2 * i + 2 <= Z.of_nat (length (st_mem s))
  /\ 0 <= dst + 4 * i /\ dst + 4 * i + 4 <= Z.of_nat (length (st_mem s)).
Proof.
  destruct p; cbn [decode_body].
  - unfold decode_fast_body. intros H.
    apply bind_inv in H as (x & s2 & Hl & H).
    apply load_u16_inv in Hl as (Hm & Hl).
    apply store_f32_inv in H as (Hlen & Hs). rewrite Hm in *.
    split; [exact Hlen | lia].
  - unfold decode_bytewise_body. intros H.
    apply bind_inv in H as (i2 & s2 & Ha & H).
    apply int_arith_inv in Ha as (-> & -> & _).
    apply bind_inv in H as (x0 & s3 & Hl0 & H).
    apply load_u8_inv in Hl0 as (Hm0 & Hl0).
    apply bind_inv in H as (i21 & s4 & Ha & H).
    apply int_arith_inv in Ha as (-> & -> & _).
    apply bind_inv in H as (x1 & s5 & Hl1 & H).
    apply load_u8_inv in Hl1 as (Hm1 & Hl1).
    apply store_f32_inv in H as (Hlen & Hs).
    rewrite Hm1, Hm0 in *. split; [exact Hlen | lia].
Qed.

Lemma for_int_inv (p : path) (host : endianness) (src dst n : Z) (k : nat) :
  forall (i : Z) (s s1 : state),
    0 <= i <= CInt.INT_MAX ->
    for_int k n i (decode_body p host src dst) s = Ok (tt, s1) ->
    forall j, i <= j < n ->
      0 <= src + 2 * j /\ src + 2 * j + 2 <= Z.of_nat (length (st_mem s))
      /\ 0 <= dst + 4 * j /\ dst + 4 * j + 4 <= Z.of_nat (length (st_mem s)).
Proof.
  induction k as [|k IH]; intros i s s1 Hi Hrun j Hj.
  - simpl in Hrun. rewrite to_size_t_small in Hrun by lia.
    destruct (Z.ltb_spec i n); [discriminate | lia].
  - simpl in Hrun. rewrite to_size_t_small in Hrun by lia.
    destruct (Z.ltb_spec i n); [| lia].
    apply bind_inv in Hrun as ([] & s2 & Hbody & Hrun).
    apply decode_body_inv in Hbody as (Hlen & Hbody).
    apply bind_inv in Hrun as (i' & s3 & Ha & Hrun).
    apply int_arith_inv in Ha as (-> & -> & Hmax).
    destruct (Z.eq_dec j i) as [->|Hne]; [exact Hbody |].
    rewrite <- Hlen.
    apply (IH (i + 1) s2 s1); [lia | exact Hrun | lia].
Qed.

(** X6.  No bounds are checked: with at least one sample to decode, a
    buffer that starts before the memory or does not fit in it makes the
    behaviour of the decoder undefined. *)
Theorem decode_undersized (host : endianness) (src dst n : Z)
        (m : list byte) (tr : list event) :
  0 < n ->
  src < 0 \/ dst < 0
  \/ Z.of_nat (length m) < src + 2 * n \/ Z.of_nat (length m) < dst + 4 * n ->
  vw_pcm16sleDecode host src dst n (mkState m tr) = Undef.
Proof.
  intros Hn Hbad.
  pose proof (decode_fuel host src dst n (mkState m tr)) as Hfuel.
  destruct (vw_pcm16sleDecode host src dst n (mkState m tr))
    as [[[] s1]| |] eqn:Hrun; [| reflexivity | congruence].
  exfalso. rewrite vw_pcm16sleDecode_path in Hrun.
  assert (Hinv := for_int_inv (path_of_host host) host src dst n
                    (Z.to_nat n) 0 (mkState m tr) s1
                    ltac:(unfold CInt.INT_MAX; lia)).
  cbn [st_mem] in Hinv.
  assert (Hall : forall j, 0 <= j < n ->
            0 <= src + 2 * j /\ src + 2 * j + 2 <= Z.of_nat (length m)
            /\ 0 <= dst + 4 * j /\ dst + 4 * j + 4 <= Z.of_nat (length m)).
  { apply Hinv. destruct (path_of_host host); exact Hrun. }
  pose proof (Hall 0 ltac:(lia)). pose proof (Hall (n - 1) ltac:(lia)). lia.
Qed.

Lemma decode_undersized_witness :
  0 < 1 /\
  (0 < 0 \/ 8 < 0
   \/ Z.of_nat (length mem_one_sample) < 0 + 2 * 1
   \/ Z.of_nat (length mem_one_sample) < 8 + 4 * 1) /\
  vw_pcm16sleDecode LittleEndian 0 8 1 (mkState mem_one_sample []) = Undef.
Proof.
  assert (Hn : 0 < 1) by lia.
  assert (Hbad : 0 < 0 \/ 8 < 0
                 \/ Z.of_nat (length mem_one_sample) < 0 + 2 * 1
                 \/ Z.of_nat (length mem_one_sample) < 8 + 4 * 1)
    by (simpl; lia).
  split; [exact Hn | split; [exact Hbad |]].
  exact (decode_undersized LittleEndian 0 8 1 mem_one_sample [] Hn Hbad).
Defined.

(** *** A single pass over the input *)







(** *** The loop counter *)

Lemma for_int_counter_overflow (body : Z -> M unit) (n : Z) (k : nat) :
  CInt.INT_MAX < n ->
  forall (i : Z) (s s1 : state),
    0 <= i <= CInt.INT_MAX -> for_int k n i body s <> Ok (tt, s1).
Proof.
  intros Hn. induction k as [|k IH]; intros i s s1 Hi Hrun.
  - simpl in Hrun. rewrite to_size_t_small in Hrun by lia.
    destruct (Z.ltb_spec i n); [discriminate | lia].
  - simpl in Hrun. rewrite to_size_t_small in Hrun by lia.
    destruct (Z.ltb_spec i n); [| lia].
    apply bind_inv in Hrun as ([] & s2 & _ & Hrun).
    apply bind_inv in Hrun as (i' & s3 & Ha & Hrun).
    apply int_arith_inv in Ha as (-> & -> & Hmax).
    apply (IH (i + 1) s2 s1); [lia | exact Hrun].
Qed.

(** X11.  The loop counter is an [int] while [numSamples] is a [size_t]:
    for a sample count above [INT_MAX] the counter would have to overflow
    before the loop ends, so the behaviour of the decoder is undefined,
    however large the memory. *)
Theorem decode_counter_overflow (host : endianness) (src dst n : Z)
        (s : state) :
  CInt.INT_MAX < n ->
  vw_pcm16sleDecode host src dst n s = Undef.
Proof.
  intros Hn.
  pose proof (decode_fuel host src dst n s) as Hfuel.
  destruct (vw_pcm16sleDecode host src dst n s) as [[[] s1]| |] eqn:Hrun;
    [| reflexivity | congruence].
  exfalso. rewrite vw_pcm16sleDecode_path in Hrun.
  apply (for_int_counter_overflow
           (decode_body (path_of_host host) host src dst) n (Z.to_nat n) Hn
           0 s s1 ltac:(unfold CInt.INT_MAX; lia)).
  destruct (path_of_host host); exact Hrun.
Qed.

Lemma decode_counter_overflow_witness :
  CInt.INT_MAX < 2147483648 /\
  vw_pcm16sleDecode LittleEndian 0 4 2147483648 (mkState mem_one_sample [])
  = Undef.
Proof.
  assert (Hn : CInt.INT_MAX < 2147483648) by (unfold CInt.INT_MAX; lia).
  split; [exact Hn |].
  exact (decode_counter_overflow LittleEndian 0 4 2147483648
           (mkState mem_one_sample []) Hn).
Defined.

(** *** Decoding in chunks *)

Lemma for_int_split (body : Z -> M unit) (mid N : Z) :
  0 <= mid <= N -> N <= CInt.INT_MAX ->
  forall (k : nat) (i : Z) (s : state),
    0 <= i -> i + Z.of_nat k = mid ->
    for_int (k + Z.to_nat (N - mid)) N i body s
    = bind (for_int k mid i body)
        (fun _ => for_int (Z.to_nat (N - mid)) N mid body) s.
Proof.
  intros Hmid HN k. induction k as [|k IH]; intros i s Hi Hk.
  - assert (i = mid) as -> by lia.
    cbn [Nat.add for_int]. rewrite to_size_t_small by lia.
    destruct (Z.ltb_spec mid mid); [lia |]. reflexivity.
  - cbn [Nat.add for_int]. rewrite to_size_t_small by lia.
    destruct (Z.ltb_spec i N); [| lia].
    destruct (Z.ltb_spec i mid); [| lia].
    unfold bind in *.
    destruct (body i s) as [[[] s1]| |]; [| reflexivity | reflexivity].
    rewrite int_arith_ok by (unfold CInt.INT_MIN; lia).
    apply IH; lia.
Qed.

Lemma for_int_shift (body body' : Z -> M unit) (d N : Z) :
  0 <= d -> N + d <= CInt.INT_MAX ->
  (forall j s, 0 <= j < N -> body (j + d) s = body' j s) ->
  forall (k : nat) (i : Z) (s : state),
    0 <= i <= N ->
    for_int k (N + d) (i + d) body s = for_int k N i body' s.
Proof.
  intros Hd HN Hbody k. induction k as [|k IH]; intros i s Hi.
  - cbn [for_int]. rewrite !to_size_t_small by lia.
    destruct (Z.ltb_spec (i + d) (N + d)), (Z.ltb_spec i N);
      try lia; reflexivity.
  - cbn [for_int]. rewrite !to_size_t_small by lia.
    destruct (Z.ltb_spec (i + d) (N + d)), (Z.ltb_spec i N);
      try lia; [| reflexivity].
    unfold bind. rewrite Hbody by lia.
    destruct (body' i s) as [[[] s1]| |]; [| reflexivity | reflexivity].
    rewrite !int_arith_ok by (unfold CInt.INT_MIN; lia).
    replace (i + d + 1) with (i + 1 + d) by lia.
    apply IH. lia.
Qed.

(** Iteration [j + d] on the whole buffers is iteration [j] on the buffers
    that start [d] samples further. *)
Lemma decode_body_shift (p : path) (host : endianness) (src dst d j : Z)
      (s : state) :
  0 <= d -> 0 <= j -> 2 * (j + d) + 1 <= CInt.INT_MAX ->
  decode_body p host src dst (j + d) s
  = decode_body p host (src + 2 * d) (dst + 4 * d) j s.
Proof.
  intros Hd Hj Hmax. destruct p; cbn [decode_body].
  - unfold decode_fast_body.
    replace (src + 2 * (j + d)) with (src + 2 * d + 2 * j) by lia.
    replace (dst + 4 * (j + d)) with (dst + 4 * d + 4 * j) by lia.
    reflexivity.
  - unfold decode_bytewise_body.
    unfold bind.
    rewrite !int_arith_ok by (unfold CInt.INT_MIN; lia).
    replace (src + 2 * (j + d)) with (src + 2 * d + 2 * j) by lia.
    destruct (load_u8 (src + 2 * d + 2 * j) s) as [[x0 s1]| |];
      [| reflexivity | reflexivity].
    rewrite !int_arith_ok by (unfold CInt.INT_MIN; lia).
    replace (src + (2 * (j + d) + 1)) with (src + 2 * d + (2 * j + 1)) by lia.
    replace (dst + 4 * (j + d)) with (dst + 4 * d + 4 * j) by lia.
    reflexivity.
Qed.

(** X7.  Decoding composes: on buffers that lie inside the memory and do
    not overlap, decoding [n1 + n2] samples leaves the state (memory and
    trace) that decoding the first [n1] samples and then the [n2] samples
    that follow, into the part of [dst] that follows, leaves. *)
Theorem decode_chunked (host : endianness) (src dst n1 n2 : Z)
        (m : list byte) (tr : list event) :
  0 <= n1 -> 0 <= n2 -> in_bounds m src dst (n1 + n2) ->
  disjoint src dst (n1 + n2) ->
  exists s1 s2,
    vw_pcm16sleDecode host src dst n1 (mkState m tr) = Ok (tt, s1)
    /\ vw_pcm16sleDecode host (src + 2 * n1) (dst + 4 * n1) n2 s1
       = Ok (tt, s2)
    /\ vw_pcm16sleDecode host src dst (n1 + n2) (mkState m tr)
       = Ok (tt, s2).
Proof.
  intros Hn1 Hn2 Hb _. rewrite !vw_pcm16sleDecode_path.
  set (p := path_of_host host).
  destruct Hb as (Hmem & Hn & Hs0 & Hs1 & Hd0 & Hd1).
  assert (Hb1 : in_bounds m src dst n1) by (unfold in_bounds; lia).
  destruct (decode_path_ok p host src dst n1 m tr Hb1)
    as ([m1 tr1] & Hrun1 & [Hlen1 _ _ _]).
  cbn [st_mem] in Hlen1.
  assert (Hb2 : in_bounds m1 (src + 2 * n1) (dst + 4 * n1) n2)
    by (unfold in_bounds; rewrite Hlen1; lia).
  destruct (decode_path_ok p host (src + 2 * n1) (dst + 4 * n1) n2 m1 tr1 Hb2)
    as (s2 & Hrun2 & _).
  exists (mkState m1 tr1), s2.
  split; [exact Hrun1 | split; [exact Hrun2 |]].
  unfold CInt.SIZE_MAX in Hmem.
  assert (Hwhole :
    decode_path p host src dst (n1 + n2) (mkState m tr)
    = bind (decode_path p host src dst n1)
        (fun _ => decode_path p host (src + 2 * n1) (dst + 4 * n1) n2)
        (mkState m tr)).
  { transitivity
      (bind (for_int (Z.to_nat n1) n1 0 (decode_body p host src dst))
         (fun _ => for_int (Z.to_nat (n1 + n2 - n1)) (n1 + n2) n1
                     (decode_body p host src dst)) (mkState m tr)).
    - rewrite <- (for_int_split (decode_body p host src dst) n1 (n1 + n2))
        by (unfold CInt.INT_MAX; lia).
      replace (Z.to_nat n1 + Z.to_nat (n1 + n2 - n1))%nat
        with (Z.to_nat (n1 + n2)) by lia.
      destruct p; reflexivity.
    - unfold bind.
      replace (for_int (Z.to_nat n1) n1 0 (decode_body p host src dst)
                 (mkState m tr))
        with (decode_path p host src dst n1 (mkState m tr))
        by (destruct p; reflexivity).
      destruct (decode_path p host src dst n1 (mkState m tr))
        as [[[] s]| |]; [| reflexivity | reflexivity].
      replace (n1 + n2 - n1) with n2 by lia.
      replace (n1 + n2) with (n2 + n1) by lia.
      change n1 with (0 + n1) at 2.
      rewrite (for_int_shift (decode_body p host src dst)
                 (decode_body p host (src + 2 * n1) (dst + 4 * n1)) n1 n2)
        by (try (unfold CInt.INT_MAX; lia);
            intros j s' Hj; apply decode_body_shift;
            unfold CInt.INT_MAX; lia).
      destruct p; reflexivity. }
  rewrite Hwhole. unfold bind. rewrite Hrun1. exact Hrun2.
Qed.

Lemma decode_chunked_witness :
  0 <= 1 /\ 0 <= 1 /\ in_bounds mem_two_samples 0 4 (1 + 1) /\
  disjoint 0 4 (1 + 1) /\
  exists s1 s2,
    vw_pcm16sleDecode LittleEndian 0 4 1 (mkState mem_two_samples [])
    = Ok (tt, s1)
    /\ vw_pcm16sleDecode LittleEndian (0 + 2 * 1) (4 + 4 * 1) 1 s1
       = Ok (tt, s2)
    /\ vw_pcm16sleDecode LittleEndian 0 4 (1 + 1) (mkState mem_two_samples [])
       = Ok (tt, s2).
Proof.
  assert (H1 : 0 <= 1) by lia.
  assert (Hb : in_bounds mem_two_samples 0 4 (1 + 1))
    by (unfold in_bounds, CInt.SIZE_MAX; simpl; lia).
  assert (Hd : disjoint 0 4 (1 + 1)) by (unfold disjoint; lia).
  split; [exact H1 | split; [exact H1 | split; [exact Hb |]]].
  split; [exact Hd |].
  exact (decode_chunked LittleEndian 0 4 1 1 mem_two_samples [] H1 H1 Hb Hd).
Defined.

(** *** The values written on each host, on two samples *)


